(** * Capacity and admission engine of the registration bot

    A shallow embedding of the decision logic of [main.py] and of the
    schema of [models.py]: the two tables, the aggregate queries, and the
    handlers that read and write registrations.

    Storage model.  A table is a finite map from the primary key to the
    row, in the SQLite database that [config.py] and [db.py] set up.  The
    two uniqueness constraints of [Registration] are enforced (a violating
    flush raises [IntegrityError]).  The foreign key [game_id] with
    [ondelete="CASCADE"] is declared but not enforced: [db.py] never turns
    SQLite's foreign keys on, and the relationship's [passive_deletes]
    leaves the registrations of a deleted game to the database.  A new row
    gets the key one above the largest key of its table.  Python integers
    are unbounded, so they are [Z]; an [Integer] column holds 64 bits.
    A string holds the UTF-8 encoding of a text.
    Time stamps, titles' formatting and the rendered texts are left out;
    a handler's answer is kept as a constructor of [reply].  The paged list
    of games of [keyboards.py] is embedded with its buttons' texts and
    callback data. *)

From stdpp Require Import gmap strings list fin_maps pretty.
From Stdlib Require Import ZArith Lia.

Open Scope Z_scope.

(** ** models.py *)

Record Game := mkGame {
  title : string;
  teams_capacity : option Z;
  people_capacity : option Z;
  is_active : bool
}.

Record Registration := mkRegistration {
  user_id : Z;
  chat_id : Z;
  game_id : Z;
  team_name : string;
  players : Z;
  status : string
}.

Record db := mkDb {
  games : gmap Z Game;
  registrations : gmap Z Registration
}.

Definition empty_db : db := mkDb ∅ ∅.

Definition CONFIRMED : string := "confirmed".
Definition WAITLIST : string := "waitlist".

(** Key given to the next inserted row. *)
Definition next_id {A} (m : gmap Z A) : Z :=
  1 + foldr Z.max 0 (map fst (map_to_list m)).

(** ** Queries *)

(** [select ... where cond]: the rows of the table that satisfy [cond]. *)
Definition select_where (cond : Z → Registration → bool)
    (regs : gmap Z Registration) : list (Z * Registration) :=
  List.filter (λ kr, cond kr.1 kr.2) (map_to_list regs).

Definition count_rows (rows : list (Z * Registration)) : Z :=
  Z.of_nat (length rows).

Definition sum_players (rows : list (Z * Registration)) : Z :=
  foldr (λ kr acc, players kr.2 + acc) 0 rows.

Definition is_confirmed_in (gid : Z) (r : Registration) : bool :=
  bool_decide (game_id r = gid) && bool_decide (status r = CONFIRMED).

Definition count_confirmed_teams (s : db) (gid : Z) : Z :=
  count_rows (select_where (λ _ r, is_confirmed_in gid r) (registrations s)).

Definition sum_confirmed_people (s : db) (gid : Z) (exclude_reg_id : option Z) : Z :=
  sum_players
    (select_where
       (λ i r, is_confirmed_in gid r &&
               match exclude_reg_id with
               | Some x => bool_decide (i ≠ x)
               | None => true
               end)
       (registrations s)).

Definition count_waitlist_teams (s : db) (gid : Z) : Z :=
  count_rows
    (select_where
       (λ _ r, bool_decide (game_id r = gid) && bool_decide (status r = WAITLIST))
       (registrations s)).

(** ** Constraints checked by a flush *)

(** Does a row other than [self] clash with [r] on one of the two
    uniqueness constraints [uix_reg_game_user], [uix_reg_game_team]? *)
Definition unique_violation (self : Z) (r : Registration)
    (regs : gmap Z Registration) : bool :=
  existsb
    (λ kr, bool_decide (kr.1 ≠ self) &&
           bool_decide (game_id kr.2 = game_id r) &&
           (bool_decide (user_id kr.2 = user_id r) ||
            bool_decide (team_name kr.2 = team_name r)))
    (map_to_list regs).

(** [s.add(reg); s.flush()]: [None] stands for [IntegrityError]. *)
Definition flush_insert (r : Registration) (s : db) : option (Z * db) :=
  let i := next_id (registrations s) in
  if unique_violation i r (registrations s) then None
  else Some (i, mkDb (games s) (<[i := r]> (registrations s))).

(** Flush of a modified row [i]. *)
Definition flush_update (i : Z) (r : Registration) (s : db) : option db :=
  if unique_violation i r (registrations s) then None
  else Some (mkDb (games s) (<[i := r]> (registrations s))).

(** ** Conversation state and answers *)

Inductive fsm :=
| no_state
| entering_team_name (gid : Z)
| entering_players (gid : Z) (name : string)
| entering_new_name (reg_id : Z)
| entering_new_players (reg_id : Z)
| confirming_active.

Inductive reply :=
| NeedNumber1to12
| GameUnavailable
| AlreadyRegistered
| AskTeamName
| TeamNameLength
| TeamNameTaken
| AskPlayers
| DuplicateOrNameTaken
| RegistrationCreated (st : string) (c_teams w_teams c_people : Z)
| RegistrationNotFound
| SaveFailed
| TeamNameUpdated
| PlayersUpdated
| RegistrationDeleted
| GameNotFound
| GameCard (active : bool)
| GameDeleted
| GameAdded
| Silent
| AttributeError
| OverflowError.

Record outcome := mkOutcome {
  answer : reply;
  state_after : fsm;
  store : db
}.

(** How the body of [async with session_scope() as s] ends. *)
Inductive session_end :=
| Returned (a : reply) (f : fsm) (s' : db)
| FlushFailed (a : reply) (f : fsm)
| Raised (a : reply) (f : fsm).

(** [session_scope]: commit when the body ends normally; a failed flush has
    rolled the transaction back, and an exception rolls it back too. *)
Definition session_scope (s : db) (body : db → session_end) : outcome :=
  match body s with
  | Returned a f s' => mkOutcome a f s'
  | FlushFailed a f => mkOutcome a f s
  | Raised a f => mkOutcome a f s
  end.

(** ** Capacity evaluation *)

(** Lines 328-332 of [players_step]. *)
Definition create_status (g : Game) (confirmed_teams confirmed_people players : Z)
    : string :=
  let teams_over :=
    match teams_capacity g with
    | Some cap => confirmed_teams >=? cap
    | None => false
    end in
  let people_over :=
    match people_capacity g with
    | Some cap => confirmed_people + players >? cap
    | None => false
    end in
  if teams_over || people_over then WAITLIST else CONFIRMED.

(** Lines 468-471 of [edit_players_apply]. *)
Definition edit_status (g : Game) (confirmed_teams confirmed_people_excl players : Z)
    : string :=
  let teams_over :=
    match teams_capacity g with
    | Some cap => confirmed_teams >? cap
    | None => false
    end in
  let people_over :=
    match people_capacity g with
    | Some cap => confirmed_people_excl + players >? cap
    | None => false
    end in
  if teams_over || people_over then WAITLIST else CONFIRMED.

(** ** User handlers *)

(** The test [if not game or not game.is_active] of [choose_game] and
    [players_step]: the game when it exists and is active. *)
Definition game_open (s : db) (gid : Z) : option Game :=
  match games s !! gid with
  | Some g => if is_active g then Some g else None
  | None => None
  end.

Definition choose_game (st : fsm) (uid gid : Z) (s : db) : outcome :=
  session_scope s (λ s,
    match game_open s gid with
    | None => Returned GameUnavailable st s
    | Some _ =>
      if existsb (λ kr, bool_decide (user_id kr.2 = uid) &&
                        bool_decide (game_id kr.2 = gid))
                 (map_to_list (registrations s))
      then Returned AlreadyRegistered st s
      else Returned AskTeamName (entering_team_name gid) s
    end).

(** A byte [10xxxxxx], which continues a character of a UTF-8 text. *)
Definition is_continuation_byte (a : Ascii.ascii) : bool :=
  match a with
  | Ascii.Ascii _ _ _ _ _ _ b6 b7 => b7 && negb b6
  end.

(** [len(s)] of Python: the characters of the text, that is the bytes of
    its UTF-8 encoding that start a character. *)
Fixpoint py_len (s : string) : nat :=
  match s with
  | EmptyString => 0
  | String a s' => if is_continuation_byte a then py_len s' else S (py_len s')
  end.

(** [2 <= len(name) <= 40], on the stripped text. *)
Definition valid_name (name : string) : bool :=
  (2 <=? py_len name)%nat && (py_len name <=? 40)%nat.

Definition team_name_step (gid : Z) (name : string) (s : db) : outcome :=
  if negb (valid_name name)
  then mkOutcome TeamNameLength (entering_team_name gid) s
  else
    session_scope s (λ s,
      if existsb (λ kr, bool_decide (game_id kr.2 = gid) &&
                        bool_decide (team_name kr.2 = name))
                 (map_to_list (registrations s))
      then Returned TeamNameTaken (entering_team_name gid) s
      else Returned AskPlayers (entering_players gid name) s).

Definition valid_players (p : Z) : bool := (1 <=? p) && (p <=? 12).

(** [text] is the message parsed by [int]; [None] stands for [ValueError]. *)
Definition players_step (text : option Z) (gid : Z) (name : string)
    (uid chat : Z) (s : db) : outcome :=
  let st := entering_players gid name in
  match text with
  | None => mkOutcome NeedNumber1to12 st s
  | Some p =>
    if negb (valid_players p) then mkOutcome NeedNumber1to12 st s
    else
      session_scope s (λ s,
        match game_open s gid with
        | None => Returned GameUnavailable no_state s
        | Some game =>
          let confirmed_teams := count_confirmed_teams s gid in
          let confirmed_people := sum_confirmed_people s gid None in
          let status := create_status game confirmed_teams confirmed_people p in
          let reg := mkRegistration uid chat gid name p status in
          match flush_insert reg s with
          | None => FlushFailed DuplicateOrNameTaken st
          | Some (_, s1) =>
            Returned
              (RegistrationCreated status
                 (count_confirmed_teams s1 gid)
                 (count_waitlist_teams s1 gid)
                 (sum_confirmed_people s1 gid None))
              no_state s1
          end
        end)
  end.

Definition owned_by (uid : Z) (reg : option Registration) : option Registration :=
  match reg with
  | Some r => if bool_decide (user_id r = uid) then Some r else None
  | None => None
  end.

Definition set_team_name (name : string) (r : Registration) : Registration :=
  mkRegistration (user_id r) (chat_id r) (game_id r) name (players r) (status r).

Definition set_players (p : Z) (r : Registration) : Registration :=
  mkRegistration (user_id r) (chat_id r) (game_id r) (team_name r) p (status r).

Definition set_status (st : string) (r : Registration) : Registration :=
  mkRegistration (user_id r) (chat_id r) (game_id r) (team_name r) (players r) st.

Definition edit_name_apply (name : string) (reg_id uid : Z) (s : db) : outcome :=
  let st := entering_new_name reg_id in
  if negb (valid_name name) then mkOutcome TeamNameLength st s
  else
    session_scope s (λ s,
      match owned_by uid (registrations s !! reg_id) with
      | None => Returned RegistrationNotFound no_state s
      | Some reg =>
        if existsb (λ kr, bool_decide (game_id kr.2 = game_id reg) &&
                          bool_decide (team_name kr.2 = name) &&
                          bool_decide (kr.1 ≠ reg_id))
                   (map_to_list (registrations s))
        then Returned TeamNameTaken st s
        else
          match flush_update reg_id (set_team_name name reg) s with
          | None => FlushFailed SaveFailed st
          | Some s1 => Returned TeamNameUpdated no_state s1
          end
      end).

Definition edit_players_apply (text : option Z) (reg_id uid : Z) (s : db) : outcome :=
  let st := entering_new_players reg_id in
  match text with
  | None => mkOutcome NeedNumber1to12 st s
  | Some p =>
    if negb (valid_players p) then mkOutcome NeedNumber1to12 st s
    else
      session_scope s (λ s,
        match owned_by uid (registrations s !! reg_id) with
        | None => Returned RegistrationNotFound no_state s
        | Some reg =>
          (* reg.players = players, written out before the next query *)
          let reg1 := set_players p reg in
          let s1 := mkDb (games s) (<[reg_id := reg1]> (registrations s)) in
          match games s1 !! game_id reg1 with
          | None => Raised AttributeError st
          | Some game =>
            let confirmed_teams := count_confirmed_teams s1 (game_id reg1) in
            let confirmed_people_excl :=
              sum_confirmed_people s1 (game_id reg1) (Some reg_id) in
            let reg2 :=
              set_status
                (edit_status game confirmed_teams confirmed_people_excl p) reg1 in
            Returned PlayersUpdated no_state
              (mkDb (games s1) (<[reg_id := reg2]> (registrations s1)))
          end
        end)
  end.

Definition delete_registration (st : fsm) (reg_id uid : Z) (s : db) : outcome :=
  session_scope s (λ s,
    match owned_by uid (registrations s !! reg_id) with
    | None => Returned RegistrationNotFound st s
    | Some _ =>
      Returned RegistrationDeleted st
        (mkDb (games s) (delete reg_id (registrations s)))
    end).

(** ** Administrator handlers *)

Section Admin.

(** [settings.admin_ids] of [config.py]. *)
Variable admin_ids : list Z.

Definition is_admin (uid : Z) : bool := bool_decide (uid ∈ admin_ids).

Definition set_active (b : bool) (g : Game) : Game :=
  mkGame (title g) (teams_capacity g) (people_capacity g) b.

Definition admin_toggle_game (st : fsm) (uid gid : Z) (s : db) : outcome :=
  if negb (is_admin uid) then mkOutcome Silent st s
  else
    session_scope s (λ s,
      match games s !! gid with
      | None => Returned GameNotFound st s
      | Some g =>
        let g' := set_active (negb (is_active g)) g in
        Returned (GameCard (is_active g')) st
          (mkDb (<[gid := g']> (games s)) (registrations s))
      end).

(** [s.delete(g)]: the session holds the game alone, its registrations
    are not loaded, and with [passive_deletes] the only statement is the
    deletion of the game's row.  The registrations stay. *)
Definition delete_game_row (gid : Z) (s : db) : db :=
  mkDb (delete gid (games s)) (registrations s).

Definition admin_delete_game (st : fsm) (uid gid : Z) (s : db) : outcome :=
  if negb (is_admin uid) then mkOutcome Silent st s
  else
    session_scope s (λ s,
      match games s !! gid with
      | None => Returned GameNotFound st s
      | Some _ => Returned GameDeleted st (delete_game_row gid s)
      end).

(** A Python integer that an [Integer] column of SQLite takes; a larger one
    makes the statement raise [OverflowError]. *)
Definition fits_int64 (n : Z) : bool :=
  (-9223372036854775808 <=? n) && (n <=? 9223372036854775807).

Definition cap_fits (c : option Z) : bool :=
  match c with Some n => fits_int64 n | None => true end.

Definition add_game_confirm (ttl : string) (teams_cap people_cap : option Z)
    (active : bool) (s : db) : outcome :=
  session_scope s (λ s,
    let g := mkGame ttl teams_cap people_cap active in
    if cap_fits teams_cap && cap_fits people_cap
    then Returned GameAdded no_state
           (mkDb (<[next_id (games s) := g]> (games s)) (registrations s))
    else Raised OverflowError confirming_active).

(** ** Operations that write the store *)

Inductive op :=
| Register (text : option Z) (gid : Z) (name : string) (uid chat : Z)
| EditPlayers (text : option Z) (reg_id uid : Z)
| EditTeamName (name : string) (reg_id uid : Z)
| DeleteRegistration (reg_id uid : Z)
| ToggleGame (uid gid : Z)
| DeleteGame (uid gid : Z)
| AddGame (ttl : string) (teams_cap people_cap : option Z) (active : bool).

Definition apply_op (o : op) (s : db) : db :=
  match o with
  | Register text gid name uid chat => store (players_step text gid name uid chat s)
  | EditPlayers text reg_id uid => store (edit_players_apply text reg_id uid s)
  | EditTeamName name reg_id uid => store (edit_name_apply name reg_id uid s)
  | DeleteRegistration reg_id uid => store (delete_registration no_state reg_id uid s)
  | ToggleGame uid gid => store (admin_toggle_game no_state uid gid s)
  | DeleteGame uid gid => store (admin_delete_game no_state uid gid s)
  | AddGame ttl tc pc active => store (add_game_confirm ttl tc pc active s)
  end.

Definition run (ops : list op) (s : db) : db :=
  foldl (λ s o, apply_op o s) s ops.

End Admin.

(** ** Predicates used in the statements *)

(** The store without row [i]: the OTHER registrations. *)
Definition without (i : Z) (s : db) : db :=
  mkDb (games s) (delete i (registrations s)).

(** No stored registration of game [gid] belongs to [uid] or bears [name]. *)
Definition no_clash (s : db) (gid uid : Z) (name : string) : Prop :=
  map_Forall (λ _ r, game_id r = gid → user_id r ≠ uid ∧ team_name r ≠ name)
             (registrations s).

#[global] Instance no_clash_dec s gid uid name : Decision (no_clash s gid uid name).
Proof. unfold no_clash. apply _. Defined.

Definition is_created (a : reply) : bool :=
  match a with RegistrationCreated _ _ _ _ => true | _ => false end.

Definition status_ok (r : Registration) : Prop :=
  status r = CONFIRMED ∨ status r = WAITLIST.

Definition status_domain (s : db) : Prop :=
  map_Forall (λ _ r, status_ok r) (registrations s).

(** The re-evaluation as the specification words it: the aggregates are those
    of the OTHER confirmed registrations of the game, and the team comparison
    is strict when the edited registration was itself already confirmed, and
    as on creation otherwise. *)
Definition edit_status_as_specified (g : Game) (others_teams others_people : Z)
    (was_confirmed : bool) (p : Z) : string :=
  let teams_over :=
    match teams_capacity g with
    | Some cap => if was_confirmed then others_teams >? cap else others_teams >=? cap
    | None => false
    end in
  let people_over :=
    match people_capacity g with
    | Some cap => others_people + p >? cap
    | None => false
    end in
  if teams_over || people_over then WAITLIST else CONFIRMED.

(** ** Concrete stores *)

(** The first scenario of the specification: both limits set. *)
Definition scenario_game : Game := mkGame "quiz" (Some 2) (Some 10) true.
Definition scenario_db : db := mkDb {[1 := scenario_game]} ∅.

(** The store of the first scenario after team A has registered. *)
Definition scenario_one_team : db :=
  store (players_step (Some 4) 1 "A" 100 100 scenario_db).

(** The store of the first scenario after teams A (4 players) and
    B (5 players) have registered. *)
Definition scenario_two_teams : db :=
  store (players_step (Some 5) 1 "B" 200 200
           (store (players_step (Some 4) 1 "A" 100 100 scenario_db))).

(** The operations of the first scenario of the specification. *)
Definition scenario_ops : list op :=
  [ AddGame "quiz" (Some 2) (Some 10) true;
    Register (Some 4) 1 "A" 100 100;
    Register (Some 5) 1 "B" 200 200;
    Register (Some 1) 1 "C" 300 300;
    EditPlayers (Some 7) 1 100 ].

(** A game with both limits, one confirmed team of twelve: the second team
    is the N-th for N = 2, and the people limit sends it to the waitlist. *)
Definition full_by_people_game : Game := mkGame "quiz" (Some 2) (Some 12) true.
Definition full_by_people_db : db :=
  mkDb {[1 := full_by_people_game]}
       {[1 := mkRegistration 100 100 1 "A" 12 CONFIRMED]}.

(** The first scenario's game, closed by its administrator. *)
Definition closed_db : db :=
  mkDb {[1 := mkGame "quiz" (Some 2) (Some 10) false]} ∅.

(** Two games, with one registration each. *)
Definition two_games_db : db :=
  mkDb {[1 := scenario_game; 2 := mkGame "darts" None None true]}
       {[1 := mkRegistration 100 100 1 "A" 4 CONFIRMED;
         2 := mkRegistration 100 100 2 "A" 3 CONFIRMED]}.

(** A game limited to one team, with two confirmed teams. *)
Definition one_team_game : Game := mkGame "duel" (Some 1) None true.
Definition overshoot_db : db :=
  mkDb {[1 := one_team_game]}
       {[1 := mkRegistration 100 100 1 "A" 1 CONFIRMED;
         2 := mkRegistration 200 200 1 "B" 1 CONFIRMED]}.

(** The same game after team A, then team B, have registered through
    [players_step]: A is confirmed and B is on the waitlist. *)
Definition one_team_ops : list op :=
  [ AddGame "duel" (Some 1) None true;
    Register (Some 1) 1 "A" 100 100;
    Register (Some 1) 1 "B" 200 200 ].

Definition waitlisted_db : db := run [] one_team_ops empty_db.

(** ** Well-formed stores and the transitions of the store *)

(** The two uniqueness constraints of [models.py], as a property of the
    table: two rows of one game with the same user or the same team name
    are the same row. *)
Definition unique_store (s : db) : Prop :=
  ∀ i j ri rj,
    registrations s !! i = Some ri → registrations s !! j = Some rj →
    game_id ri = game_id rj →
    user_id ri = user_id rj ∨ team_name ri = team_name rj →
    i = j.

(** The foreign key of [Registration.game_id]. *)
Definition referential (s : db) : Prop :=
  map_Forall (λ _ r, is_Some (games s !! game_id r)) (registrations s).

Definition players_in_range (s : db) : Prop :=
  map_Forall (λ _ r, 1 <= players r <= 12) (registrations s).

(** A limit as the wizard of [add_game_teams_capacity] and
    [add_game_people_capacity] lets it through: unset or positive. *)
Definition cap_ok (c : option Z) : Prop :=
  match c with Some n => 0 < n | None => True end.

Definition wizard_op (o : op) : Prop :=
  match o with
  | AddGame _ tc pc _ => cap_ok tc ∧ cap_ok pc
  | _ => True
  end.

Definition is_edit_players (o : op) : bool :=
  match o with EditPlayers _ _ _ => true | _ => false end.

Definition is_delete_game (o : op) : bool :=
  match o with DeleteGame _ _ => true | _ => false end.

Definition people_respected (s : db) : Prop :=
  ∀ gid g P, games s !! gid = Some g → people_capacity g = Some P →
             sum_confirmed_people s gid None <= P.

Definition teams_respected (s : db) : Prop :=
  ∀ gid g N, games s !! gid = Some g → teams_capacity g = Some N →
             count_confirmed_teams s gid <= N.

(** [cnt_all] of [teams_list_text]: all registrations of the game. *)
Definition count_all_teams (s : db) (gid : Z) : Z :=
  count_rows (select_where (λ _ r, bool_decide (game_id r = gid)) (registrations s)).

(** The invariant carried along a run: the foreign key, the range of the
    player counts and the people limit. *)
Definition people_safe (s : db) : Prop :=
  referential s ∧ players_in_range s ∧ people_respected s.

Definition teams_safe (s : db) : Prop :=
  referential s ∧ teams_respected s.

(** What an operation can do to the store: nothing, or the one write of
    its handler. *)
Inductive transition (admin_ids : list Z) (s : db) : op → db → Prop :=
| t_refused o : transition admin_ids s o s
| t_register p gid name uid chat g :
    1 <= p <= 12 → games s !! gid = Some g → is_active g = true →
    no_clash s gid uid name →
    transition admin_ids s (Register (Some p) gid name uid chat)
      (mkDb (games s)
         (<[next_id (registrations s) :=
              mkRegistration uid chat gid name p
                (create_status g (count_confirmed_teams s gid)
                   (sum_confirmed_people s gid None) p)]> (registrations s)))
| t_edit_players p reg_id uid reg g :
    1 <= p <= 12 → registrations s !! reg_id = Some reg → user_id reg = uid →
    games s !! game_id reg = Some g →
    transition admin_ids s (EditPlayers (Some p) reg_id uid)
      (mkDb (games s)
         (<[reg_id :=
              set_status
                (edit_status g
                   ((if bool_decide (status reg = CONFIRMED) then 1 else 0) +
                    count_confirmed_teams (without reg_id s) (game_id reg))
                   (sum_confirmed_people (without reg_id s) (game_id reg) None) p)
                (set_players p reg)]> (registrations s)))
| t_rename name reg_id uid reg :
    valid_name name = true →
    registrations s !! reg_id = Some reg → user_id reg = uid →
    (∀ j r, registrations s !! j = Some r → j ≠ reg_id →
            game_id r = game_id reg → team_name r ≠ name) →
    transition admin_ids s (EditTeamName name reg_id uid)
      (mkDb (games s) (<[reg_id := set_team_name name reg]> (registrations s)))
| t_delete reg_id uid reg :
    registrations s !! reg_id = Some reg → user_id reg = uid →
    transition admin_ids s (DeleteRegistration reg_id uid)
      (mkDb (games s) (delete reg_id (registrations s)))
| t_toggle uid gid g :
    uid ∈ admin_ids → games s !! gid = Some g →
    transition admin_ids s (ToggleGame uid gid)
      (mkDb (<[gid := set_active (negb (is_active g)) g]> (games s))
            (registrations s))
| t_delete_game uid gid g :
    uid ∈ admin_ids → games s !! gid = Some g →
    transition admin_ids s (DeleteGame uid gid) (delete_game_row gid s)
| t_add_game ttl tc pc active :
    cap_fits tc = true → cap_fits pc = true →
    transition admin_ids s (AddGame ttl tc pc active)
      (mkDb (<[next_id (games s) := mkGame ttl tc pc active]> (games s))
            (registrations s)).

(** ** The wizard's capacity steps *)

(** The text of the message as the step reads it: one of the words that
    skip the limit, a text that [int] parses, or anything else. *)
Inductive cap_text :=
| cap_skip
| cap_number (z : Z)
| cap_other.

Inductive cap_answer :=
| cap_accepted (c : option Z)
| cap_must_be_positive
| cap_need_number.

Definition add_game_teams_capacity (raw : cap_text) : cap_answer :=
  match raw with
  | cap_skip => cap_accepted None
  | cap_number teams_cap =>
    if teams_cap <=? 0 then cap_must_be_positive else cap_accepted (Some teams_cap)
  | cap_other => cap_need_number
  end.

Definition add_game_people_capacity (raw : cap_text) : cap_answer :=
  match raw with
  | cap_skip => cap_accepted None
  | cap_number people_cap =>
    if people_cap <=? 0 then cap_must_be_positive else cap_accepted (Some people_cap)
  | cap_other => cap_need_number
  end.

(** ** keyboards.py *)

Record InlineKeyboardButton := mkButton {
  text : string;
  callback_data : string
}.

(** A slice bound of Python, for a list of length [n]. *)
Definition slice_bound (n i : Z) : Z :=
  if i <? 0 then Z.max (n + i) 0 else Z.min i n.

(** [l[start:stop]]. *)
Definition py_slice {A} (l : list A) (start stop : Z) : list A :=
  let n := Z.of_nat (length l) in
  let a := slice_bound n start in
  let b := slice_bound n stop in
  take (Z.to_nat (b - a)) (drop (Z.to_nat a) l).

(** The markup of [games_list_kb]: one row per game of the page, as
    [adjust(1)] lays them out, then the row of navigation buttons. *)
Definition games_list_kb (games : list (Z * string)) (page page_size : Z)
    : list (list InlineKeyboardButton) :=
  let total := Z.of_nat (length games) in
  let start := (page - 1) * page_size in
  let end_ := start + page_size in
  let chunk := py_slice games start end_ in
  let nav_btns :=
    (if start >? 0
     then [mkButton "⬅️" ("page:" +:+ pretty (page - 1))] else []) ++
    (if end_ <? total
     then [mkButton "➡️" ("page:" +:+ pretty (page + 1))] else []) ++
    [mkButton "🗂 Мои регистрации" "my_regs"] in
  map (λ g : Z * string, [mkButton g.2 ("game:" +:+ pretty g.1)]) chunk ++ [nav_btns].

(** The button that opens game [g]. *)
Definition game_button (g : Z * string) : InlineKeyboardButton :=
  mkButton g.2 ("game:" +:+ pretty g.1).

(** The navigation buttons shown on page [page]. *)
Definition back_button (page : Z) : InlineKeyboardButton :=
  mkButton "⬅️" ("page:" +:+ pretty (page - 1)).

Definition forward_button (page : Z) : InlineKeyboardButton :=
  mkButton "➡️" ("page:" +:+ pretty (page + 1)).

Definition my_regs_button : InlineKeyboardButton :=
  mkButton "🗂 Мои регистрации" "my_regs".

(** Ten open games, as [start] hands them to [games_list_kb]. *)
Definition ten_games : list (Z * string) :=
  [ (10, "quiz"); (9, "darts"); (8, "chess"); (7, "poker"); (6, "bingo");
    (5, "lotto"); (4, "mafia"); (3, "rally"); (2, "derby"); (1, "relay") ].

(** A game with two teams whose names pass the length test, one of them
    in Cyrillic letters. *)
Definition named_teams_ops : list op :=
  [ AddGame "quiz" (Some 2) (Some 10) true;
    Register (Some 4) 1 "Ants" 100 100;
    Register (Some 5) 1 "Знатоки из Минска" 200 200 ].

Definition named_teams_db : db := run [] named_teams_ops empty_db.

(** [len] counts characters, not bytes: one Cyrillic letter is too short,
    twenty-seven are accepted, forty-one Latin letters are too long. *)
Example valid_name_counts_characters :
  py_len "Я" = 1%nat ∧ valid_name "Я" = false ∧
  py_len "абвгдежзийклмнопрстуфхцчшщэ" = 27%nat ∧
  valid_name "абвгдежзийклмнопрстуфхцчшщэ" = true ∧
  valid_name "Ants" = true ∧
  valid_name "abcdefghijklmnopqrstuvwxyzabcdefghijklmno" = false.
Proof. vm_compute. repeat split; reflexivity. Qed.

(** The two scenarios of the specification, run through the handlers. *)
Example scenario_one_runs :
  let regs := registrations (run [] scenario_ops empty_db) in
  regs !! 1 = Some (mkRegistration 100 100 1 "A" 7 WAITLIST) ∧
  regs !! 2 = Some (mkRegistration 200 200 1 "B" 5 CONFIRMED) ∧
  regs !! 3 = Some (mkRegistration 300 300 1 "C" 1 WAITLIST) ∧
  size regs = 3%nat.
Proof. vm_compute. repeat split; reflexivity. Qed.

Example scenario_two_runs :
  registrations waitlisted_db !! 1 = Some (mkRegistration 100 100 1 "A" 1 CONFIRMED) ∧
  registrations waitlisted_db !! 2 = Some (mkRegistration 200 200 1 "B" 1 WAITLIST) ∧
  size (registrations waitlisted_db) = 2%nat.
Proof. vm_compute. repeat split; reflexivity. Qed.

(** ** Rows of a table *)

Section Rows.

Context {A : Type}.
Implicit Types (m : gmap Z A) (l : list (Z * A)).

Lemma key_le_max l k x :
  (k, x) ∈ l → k <= foldr Z.max 0 (map fst l).
Proof.
  induction l as [|[k' x'] l IH]; intros Hin.
  - by apply elem_of_nil in Hin.
  - apply elem_of_cons in Hin as [Heq | Hin]; simpl.
    + inversion Heq; subst. lia.
    + specialize (IH Hin). lia.
Qed.

Lemma lookup_lt_next_id m k x : m !! k = Some x → k < next_id m.
Proof.
  intros Hk. apply elem_of_map_to_list in Hk.
  apply key_le_max in Hk. unfold next_id. lia.
Qed.

Lemma next_id_fresh m : m !! next_id m = None.
Proof.
  destruct (m !! next_id m) as [x|] eqn:Hk; [|done].
  apply lookup_lt_next_id in Hk. lia.
Qed.

Lemma rows_of_present m i x :
  m !! i = Some x → map_to_list m ≡ₚ (i, x) :: map_to_list (delete i m).
Proof. intros Hi. symmetry. by apply map_to_list_delete. Qed.

Lemma rows_of_insert m i x :
  map_to_list (<[i := x]> m) ≡ₚ (i, x) :: map_to_list (delete i m).
Proof.
  rewrite <- (insert_delete_eq m i x).
  apply map_to_list_insert, lookup_delete_eq.
Qed.

Lemma rows_of_delete_key m i j x :
  (j, x) ∈ map_to_list (delete i m) → j ≠ i ∧ m !! j = Some x.
Proof.
  rewrite elem_of_map_to_list, lookup_delete_Some. intros [Hne Hj].
  split; [congruence | exact Hj].
Qed.

Lemma existsb_rows (f : Z * A → bool) m i x :
  m !! i = Some x → f (i, x) = true → existsb f (map_to_list m) = true.
Proof.
  intros Hi Hf. apply existsb_exists. exists (i, x). split; [|done].
  apply list_elem_of_In. by apply elem_of_map_to_list.
Qed.

End Rows.

Lemma filter_perm {B} (f : B → bool) (l1 l2 : list B) :
  l1 ≡ₚ l2 → List.filter f l1 ≡ₚ List.filter f l2.
Proof.
  induction 1 as [|x l1 l2 _ IH|x y l|l1 l2 l3 _ IH1 _ IH2]; simpl.
  - done.
  - destruct (f x); by rewrite IH.
  - destruct (f x), (f y); try done. apply perm_swap.
  - by etrans.
Qed.

Lemma sum_players_perm l1 l2 : l1 ≡ₚ l2 → sum_players l1 = sum_players l2.
Proof.
  unfold sum_players.
  induction 1 as [|x l1 l2 _ IH|x y l|l1 l2 l3 _ IH1 _ IH2]; simpl; lia.
Qed.

Lemma count_rows_perm l1 l2 : l1 ≡ₚ l2 → count_rows l1 = count_rows l2.
Proof. intros Hp. unfold count_rows. by rewrite Hp. Qed.

(** The rows selected after row [i] is written. *)
Lemma select_where_insert cond regs i r :
  select_where cond (<[i := r]> regs) ≡ₚ
    (if cond i r then [(i, r)] else []) ++ select_where cond (delete i regs).
Proof.
  unfold select_where.
  rewrite (filter_perm _ _ _ (rows_of_insert regs i r)). simpl.
  by destruct (cond i r).
Qed.

Lemma select_where_present cond regs i r :
  regs !! i = Some r →
  select_where cond regs ≡ₚ
    (if cond i r then [(i, r)] else []) ++ select_where cond (delete i regs).
Proof.
  intros Hi.
  rewrite <- (insert_id regs i r Hi) at 1. apply select_where_insert.
Qed.

(** Excluding a key in the condition is selecting from the table without
    that row. *)
Lemma select_where_exclude (c : Registration → bool) regs x :
  select_where (λ i r, c r && bool_decide (i ≠ x)) regs ≡ₚ
  select_where (λ _ r, c r && true) (delete x regs).
Proof.
  assert (Hrest : List.filter (λ kr : Z * Registration, c kr.2 && bool_decide (kr.1 ≠ x))
                    (map_to_list (delete x regs)) =
                  List.filter (λ kr : Z * Registration, c kr.2 && true)
                    (map_to_list (delete x regs))).
  { apply List.filter_ext_in. intros [j rj] Hin.
    apply list_elem_of_In, rows_of_delete_key in Hin as [Hne _]. simpl.
    by rewrite bool_decide_eq_true_2. }
  unfold select_where.
  destruct (regs !! x) as [r|] eqn:Hx.
  - rewrite (filter_perm _ _ _ (rows_of_present regs x r Hx)). simpl.
    rewrite (bool_decide_eq_false_2 (x ≠ x)) by naive_solver.
    rewrite andb_false_r. by rewrite Hrest.
  - rewrite <- Hrest. by rewrite delete_id.
Qed.

(** ** Aggregates with and without one registration *)

Lemma count_confirmed_teams_insert s i r gid :
  count_confirmed_teams (mkDb (games s) (<[i := r]> (registrations s))) gid =
  (if is_confirmed_in gid r then 1 else 0) + count_confirmed_teams (without i s) gid.
Proof.
  unfold count_confirmed_teams. simpl.
  rewrite (count_rows_perm _ _ (select_where_insert _ _ i r)).
  unfold count_rows. destruct (is_confirmed_in gid r); simpl; lia.
Qed.

Lemma count_confirmed_teams_present s i r gid :
  registrations s !! i = Some r →
  count_confirmed_teams s gid =
  (if is_confirmed_in gid r then 1 else 0) + count_confirmed_teams (without i s) gid.
Proof.
  intros Hi. unfold count_confirmed_teams. simpl.
  rewrite (count_rows_perm _ _ (select_where_present _ _ i r Hi)).
  unfold count_rows. destruct (is_confirmed_in gid r); simpl; lia.
Qed.

Lemma sum_confirmed_people_exclude s gid i :
  sum_confirmed_people s gid (Some i) = sum_confirmed_people (without i s) gid None.
Proof.
  unfold sum_confirmed_people. simpl.
  apply sum_players_perm, (select_where_exclude (is_confirmed_in gid)).
Qed.

Lemma without_insert s i r :
  without i (mkDb (games s) (<[i := r]> (registrations s))) = without i s.
Proof. unfold without. simpl. by rewrite delete_insert_eq. Qed.

Lemma count_confirmed_teams_nonneg s gid : 0 <= count_confirmed_teams s gid.
Proof. unfold count_confirmed_teams, count_rows. lia. Qed.

(** ** The create path *)

Lemma create_status_waitlist_iff g ct cp p :
  create_status g ct cp p = WAITLIST ↔
  (∃ N, teams_capacity g = Some N ∧ ct >= N) ∨
  (∃ P, people_capacity g = Some P ∧ cp + p > P).
Proof.
  unfold create_status.
  destruct (teams_capacity g) as [N|], (people_capacity g) as [P|]; simpl;
    repeat match goal with
           | |- context [?a >=? ?b] => destruct (Z.geb_spec a b)
           | |- context [?a >? ?b] => destruct (Z.gtb_spec a b)
           end; simpl;
    (split;
     [ intros Hs; first [discriminate Hs | left; eexists; split; [done | lia]
                        | right; eexists; split; [done | lia]]
     | intros [(? & Heq & ?)|(? & Heq & ?)]; simplify_eq; first [done | lia] ]).
Qed.

Lemma create_status_domain g ct cp p :
  create_status g ct cp p = CONFIRMED ∨ create_status g ct cp p = WAITLIST.
Proof. unfold create_status. destruct (_ || _); auto. Qed.

Lemma create_status_confirmed_iff g ct cp p :
  create_status g ct cp p = CONFIRMED ↔
  ¬ ((∃ N, teams_capacity g = Some N ∧ ct >= N) ∨
     (∃ P, people_capacity g = Some P ∧ cp + p > P)).
Proof.
  rewrite <- create_status_waitlist_iff.
  destruct (create_status_domain g ct cp p) as [-> | ->];
    split; try done; intros H; by destruct H.
Qed.

Lemma unique_violation_true self r regs i r0 :
  regs !! i = Some r0 → i ≠ self → game_id r0 = game_id r →
  user_id r0 = user_id r ∨ team_name r0 = team_name r →
  unique_violation self r regs = true.
Proof.
  intros Hi Hne Hg Hor. unfold unique_violation.
  apply (existsb_rows _ regs i r0 Hi). simpl.
  rewrite (bool_decide_eq_true_2 (i ≠ self)) by done.
  rewrite (bool_decide_eq_true_2 (game_id r0 = game_id r)) by done. simpl.
  apply orb_true_iff.
  destruct Hor as [Hu | Hn]; [left | right]; by apply bool_decide_eq_true_2.
Qed.

Lemma unique_violation_false s self uid chat gid name p st :
  no_clash s gid uid name →
  unique_violation self (mkRegistration uid chat gid name p st) (registrations s)
  = false.
Proof.
  intros Hno. unfold unique_violation.
  destruct (existsb _ _) eqn:Hex; [|done].
  apply existsb_exists in Hex as ([i r] & Hin & Hc).
  apply list_elem_of_In, elem_of_map_to_list in Hin. simpl in *.
  apply andb_true_iff in Hc as [Hc Hor]. apply andb_true_iff in Hc as [_ Hg].
  apply bool_decide_eq_true_1 in Hg.
  destruct (Hno i r Hin Hg) as [Hu Hn].
  apply orb_true_iff in Hor as [H | H]; apply bool_decide_eq_true_1 in H; done.
Qed.

Lemma game_open_Some s gid g :
  games s !! gid = Some g → is_active g = true → game_open s gid = Some g.
Proof. intros Hg Ha. unfold game_open. by rewrite Hg, Ha. Qed.

Lemma valid_players_true p : 1 <= p <= 12 → valid_players p = true.
Proof. intros Hp. unfold valid_players. apply andb_true_iff. lia. Qed.

(** What [players_step] does on an admissible attempt. *)
Lemma players_step_created s gid uid chat p name g :
  1 <= p <= 12 →
  games s !! gid = Some g → is_active g = true →
  no_clash s gid uid name →
  let st := create_status g (count_confirmed_teams s gid)
                            (sum_confirmed_people s gid None) p in
  let reg := mkRegistration uid chat gid name p st in
  let s1 := mkDb (games s) (<[next_id (registrations s) := reg]> (registrations s)) in
  players_step (Some p) gid name uid chat s =
  mkOutcome (RegistrationCreated st (count_confirmed_teams s1 gid)
               (count_waitlist_teams s1 gid) (sum_confirmed_people s1 gid None))
            no_state s1.
Proof.
  intros Hp Hg Ha Hno. unfold players_step.
  rewrite (valid_players_true p Hp). simpl. unfold session_scope.
  rewrite (game_open_Some s gid g Hg Ha). unfold flush_insert.
  by rewrite (unique_violation_false s _ uid chat gid name p _ Hno).
Qed.

(** Claim C1, amended.  A new registration with [p] players in 1..12 for an
    open game, clashing with no stored one, is stored under a fresh key with
    the status WAITLIST exactly when the team limit is set and already
    reached by the confirmed teams, or the people limit is set and exceeded
    by the confirmed people plus [p]; it is CONFIRMED otherwise.  With
    [teams_capacity = N] and [N] confirmed teams the attempt is WAITLIST;
    with [N - 1] confirmed teams it is CONFIRMED provided the people limit
    is not exceeded. *)
Theorem players_step_status s gid uid chat p name g :
  1 <= p <= 12 →
  games s !! gid = Some g → is_active g = true →
  no_clash s gid uid name →
  let ct := count_confirmed_teams s gid in
  let cp := sum_confirmed_people s gid None in
  let out := players_step (Some p) gid name uid chat s in
  let new_id := next_id (registrations s) in
  ∃ st,
    registrations s !! new_id = None ∧
    registrations (store out) =
      <[new_id := mkRegistration uid chat gid name p st]> (registrations s) ∧
    (∃ a b c, answer out = RegistrationCreated st a b c) ∧
    (st = WAITLIST ↔
       (∃ N, teams_capacity g = Some N ∧ ct >= N) ∨
       (∃ P, people_capacity g = Some P ∧ cp + p > P)) ∧
    (st = CONFIRMED ↔
       ¬ ((∃ N, teams_capacity g = Some N ∧ ct >= N) ∨
          (∃ P, people_capacity g = Some P ∧ cp + p > P))) ∧
    (∀ N, teams_capacity g = Some N → ct = N → st = WAITLIST) ∧
    (∀ N, teams_capacity g = Some N → ct = N - 1 →
          (∀ P, people_capacity g = Some P → cp + p <= P) → st = CONFIRMED).
Proof.
  intros Hp Hg Ha Hno ct cp out new_id.
  exists (create_status g ct cp p).
  subst out. rewrite (players_step_created s gid uid chat p name g Hp Hg Ha Hno).
  simpl. split; [apply next_id_fresh|]. split; [done|]. split; [eauto|].
  split; [apply create_status_waitlist_iff|].
  split; [apply create_status_confirmed_iff|]. split.
  - intros N HN Hct. apply create_status_waitlist_iff. left. exists N. split; [done | lia].
  - intros N HN Hct Hpeople. apply create_status_confirmed_iff.
    intros [(N' & HN' & Hge) | (P & HP & Hgt)].
    + simplify_eq. lia.
    + specialize (Hpeople P HP). lia.
Qed.

Lemma players_step_status_witness :
  ∃ st,
    registrations scenario_db !! next_id (registrations scenario_db) = None ∧
    registrations (store (players_step (Some 4) 1 "A" 100 100 scenario_db)) =
      <[next_id (registrations scenario_db) := mkRegistration 100 100 1 "A" 4 st]>
        (registrations scenario_db) ∧
    (∃ a b c, answer (players_step (Some 4) 1 "A" 100 100 scenario_db) =
              RegistrationCreated st a b c) ∧
    (st = WAITLIST ↔
       (∃ N, teams_capacity scenario_game = Some N ∧
             count_confirmed_teams scenario_db 1 >= N) ∨
       (∃ P, people_capacity scenario_game = Some P ∧
             sum_confirmed_people scenario_db 1 None + 4 > P)) ∧
    (st = CONFIRMED ↔
       ¬ ((∃ N, teams_capacity scenario_game = Some N ∧
                count_confirmed_teams scenario_db 1 >= N) ∨
          (∃ P, people_capacity scenario_game = Some P ∧
                sum_confirmed_people scenario_db 1 None + 4 > P))) ∧
    (∀ N, teams_capacity scenario_game = Some N →
          count_confirmed_teams scenario_db 1 = N → st = WAITLIST) ∧
    (∀ N, teams_capacity scenario_game = Some N →
          count_confirmed_teams scenario_db 1 = N - 1 →
          (∀ P, people_capacity scenario_game = Some P →
                sum_confirmed_people scenario_db 1 None + 4 <= P) →
          st = CONFIRMED).
Proof.
  apply (players_step_status scenario_db 1 100 100 4 "A" scenario_game).
  - lia.
  - reflexivity.
  - reflexivity.
  - apply (bool_decide_unpack _). vm_compute. exact I.
Defined.

(** Claim C1 as stated fails: with [teams_capacity = 2] and one confirmed
    team, the second attempt is not CONFIRMED. *)
Lemma nth_team_not_confirmed :
  teams_capacity full_by_people_game = Some 2 ∧
  count_confirmed_teams full_by_people_db 1 = 2 - 1 ∧
  answer (players_step (Some 1) 1 "B" 200 200 full_by_people_db) =
    RegistrationCreated WAITLIST 1 1 12 ∧
  registrations (store (players_step (Some 1) 1 "B" 200 200 full_by_people_db)) !! 2 =
    Some (mkRegistration 200 200 1 "B" 1 WAITLIST) ∧
  WAITLIST ≠ CONFIRMED.
Proof. vm_compute. repeat split; done. Qed.

(** Claim C5 as stated fails: team C with one player brings the total to
    exactly the people limit 10, and is sent to the waitlist by the team
    limit. *)
Lemma exact_people_fit_waitlisted :
  people_capacity scenario_game = Some 10 ∧
  sum_confirmed_people scenario_two_teams 1 None + 1 = 10 ∧
  count_confirmed_teams scenario_two_teams 1 = 2 ∧
  answer (players_step (Some 1) 1 "C" 300 300 scenario_two_teams) =
    RegistrationCreated WAITLIST 2 1 9 ∧
  registrations (store (players_step (Some 1) 1 "C" 300 300 scenario_two_teams)) !! 3 =
    Some (mkRegistration 300 300 1 "C" 1 WAITLIST) ∧
  WAITLIST ≠ CONFIRMED.
Proof. vm_compute. repeat split; done. Qed.

(** Claim C5, amended.  In a game with [people_capacity = P], a CONFIRMED
    candidate always has [confirmed_people + players <= P]; when the team
    limit is unset or not yet reached, the candidate is CONFIRMED if and
    only if [confirmed_people + players <= P], and a total of exactly [P]
    confirms. *)
Theorem people_capacity_rule s gid uid chat p name g P :
  1 <= p <= 12 →
  games s !! gid = Some g → is_active g = true →
  no_clash s gid uid name →
  people_capacity g = Some P →
  let ct := count_confirmed_teams s gid in
  let cp := sum_confirmed_people s gid None in
  let out := players_step (Some p) gid name uid chat s in
  ∃ st,
    registrations (store out) !! next_id (registrations s) =
      Some (mkRegistration uid chat gid name p st) ∧
    (st = CONFIRMED → cp + p <= P) ∧
    ((∀ N, teams_capacity g = Some N → ct < N) →
     (st = CONFIRMED ↔ cp + p <= P) ∧ (cp + p = P → st = CONFIRMED)).
Proof.
  intros Hp Hg Ha Hno HP ct cp out.
  exists (create_status g ct cp p).
  subst out. rewrite (players_step_created s gid uid chat p name g Hp Hg Ha Hno).
  simpl. split; [apply lookup_insert_eq|].
  assert (Hle : create_status g ct cp p = CONFIRMED → cp + p <= P).
  { intros Hc. apply create_status_confirmed_iff in Hc.
    destruct (Z_le_gt_dec (cp + p) P) as [|Hgt]; [done|].
    destruct Hc. right. exists P. split; [done | lia]. }
  split; [exact Hle|]. intros Hteams.
  assert (Hconf : cp + p <= P → create_status g ct cp p = CONFIRMED).
  { intros Hfit. apply create_status_confirmed_iff.
    intros [(N & HN & Hge) | (P' & HP' & Hgt)].
    - specialize (Hteams N HN). lia.
    - simplify_eq. lia. }
  split; [by split|]. intros Heq. apply Hconf. lia.
Qed.

Lemma people_capacity_rule_witness :
  ∃ st,
    registrations (store (players_step (Some 5) 1 "B" 200 200
        (store (players_step (Some 4) 1 "A" 100 100 scenario_db)))) !!
      next_id (registrations (store (players_step (Some 4) 1 "A" 100 100 scenario_db))) =
      Some (mkRegistration 200 200 1 "B" 5 st) ∧
    (st = CONFIRMED →
     sum_confirmed_people (store (players_step (Some 4) 1 "A" 100 100 scenario_db)) 1 None
       + 5 <= 10) ∧
    ((∀ N, teams_capacity scenario_game = Some N →
           count_confirmed_teams
             (store (players_step (Some 4) 1 "A" 100 100 scenario_db)) 1 < N) →
     (st = CONFIRMED ↔
      sum_confirmed_people (store (players_step (Some 4) 1 "A" 100 100 scenario_db)) 1 None
        + 5 <= 10) ∧
     (sum_confirmed_people (store (players_step (Some 4) 1 "A" 100 100 scenario_db)) 1 None
        + 5 = 10 → st = CONFIRMED)).
Proof.
  apply (people_capacity_rule
           (store (players_step (Some 4) 1 "A" 100 100 scenario_db))
           1 200 200 5 "B" scenario_game 10).
  - lia.
  - reflexivity.
  - reflexivity.
  - apply (bool_decide_unpack _). vm_compute. exact I.
  - reflexivity.
Defined.

(** Claim C10.  On the create path, with the game's limits and the confirmed
    aggregates fixed, a candidate that is CONFIRMED with [p] players is
    CONFIRMED with any [p' <= p] players: both for the evaluation itself and
    for the registration that [players_step] stores. *)
Theorem create_status_antitone s gid uid chat name g p p' :
  1 <= p' → p' <= p → p <= 12 →
  games s !! gid = Some g → is_active g = true →
  no_clash s gid uid name →
  (∀ ct cp, create_status g ct cp p = CONFIRMED →
            create_status g ct cp p' = CONFIRMED) ∧
  (registrations (store (players_step (Some p) gid name uid chat s)) !!
     next_id (registrations s) =
     Some (mkRegistration uid chat gid name p CONFIRMED) →
   registrations (store (players_step (Some p') gid name uid chat s)) !!
     next_id (registrations s) =
     Some (mkRegistration uid chat gid name p' CONFIRMED)).
Proof.
  intros Hp1 Hpp Hp2 Hg Ha Hno.
  assert (Hmono : ∀ ct cp, create_status g ct cp p = CONFIRMED →
                           create_status g ct cp p' = CONFIRMED).
  { intros ct cp. rewrite !create_status_confirmed_iff.
    intros Hc [Ht | (P & HP & Hgt)]; apply Hc; [by left|].
    right. exists P. split; [done | lia]. }
  split; [exact Hmono|].
  rewrite (players_step_created s gid uid chat p name g) by (done || lia).
  rewrite (players_step_created s gid uid chat p' name g) by (done || lia).
  simpl. rewrite !lookup_insert_eq. intros [= Hst].
  by rewrite (Hmono _ _ Hst).
Qed.

Lemma create_status_antitone_witness :
  (∀ ct cp, create_status scenario_game ct cp 5 = CONFIRMED →
            create_status scenario_game ct cp 3 = CONFIRMED) ∧
  (registrations (store (players_step (Some 5) 1 "A" 100 100 scenario_db)) !!
     next_id (registrations scenario_db) =
     Some (mkRegistration 100 100 1 "A" 5 CONFIRMED) →
   registrations (store (players_step (Some 3) 1 "A" 100 100 scenario_db)) !!
     next_id (registrations scenario_db) =
     Some (mkRegistration 100 100 1 "A" 3 CONFIRMED)).
Proof.
  apply (create_status_antitone scenario_db 1 100 100 "A" scenario_game 5 3).
  - lia.
  - lia.
  - lia.
  - reflexivity.
  - reflexivity.
  - apply (bool_decide_unpack _). vm_compute. exact I.
Defined.

(** ** Rejected attempts *)

(** Whatever the input, a clash with a stored registration stops
    [players_step] before anything is written. *)
Lemma players_step_clash text s gid uid chat name i r :
  registrations s !! i = Some r → game_id r = gid →
  user_id r = uid ∨ team_name r = name →
  store (players_step text gid name uid chat s) = s ∧
  is_created (answer (players_step text gid name uid chat s)) = false ∧
  (∀ p g, text = Some p → 1 <= p <= 12 →
          games s !! gid = Some g → is_active g = true →
          players_step text gid name uid chat s =
          mkOutcome DuplicateOrNameTaken (entering_players gid name) s).
Proof.
  intros Hi Hg Hor.
  assert (Hviol : ∀ p st,
    unique_violation (next_id (registrations s))
      (mkRegistration uid chat gid name p st) (registrations s) = true).
  { intros p st. apply (unique_violation_true _ _ _ i r Hi); simpl; try done.
    apply lookup_lt_next_id in Hi. lia. }
  split; [|split].
  - unfold players_step, session_scope, flush_insert.
    destruct text as [p|]; [|done].
    destruct (valid_players p); simpl; [|done].
    destruct (game_open s gid); [|done]. by rewrite Hviol.
  - unfold players_step, session_scope, flush_insert.
    destruct text as [p|]; [|done].
    destruct (valid_players p); simpl; [|done].
    destruct (game_open s gid); [|done]. by rewrite Hviol.
  - intros p g -> Hp Hgame Ha. unfold players_step, session_scope, flush_insert.
    rewrite (valid_players_true p Hp). simpl.
    rewrite (game_open_Some s gid g Hgame Ha). by rewrite Hviol.
Qed.

(** Claim C4.  When a registration of the game is already stored for the
    same identity, or for the same team name under any identity, a further
    attempt writes nothing and creates no registration; an attempt that is
    otherwise admissible (players in 1..12, game open) is answered with the
    duplicate error.  The two earlier steps of the dialogue refuse likewise:
    [choose_game] for the identity, [team_name_step] for the name. *)
Theorem duplicate_registration_rejected s gid uid chat name i r :
  registrations s !! i = Some r → game_id r = gid →
  user_id r = uid ∨ team_name r = name →
  (∀ text,
     store (players_step text gid name uid chat s) = s ∧
     is_created (answer (players_step text gid name uid chat s)) = false) ∧
  (∀ p g, 1 <= p <= 12 → games s !! gid = Some g → is_active g = true →
     players_step (Some p) gid name uid chat s =
     mkOutcome DuplicateOrNameTaken (entering_players gid name) s) ∧
  (∀ st g, user_id r = uid → games s !! gid = Some g → is_active g = true →
     choose_game st uid gid s = mkOutcome AlreadyRegistered st s) ∧
  (team_name r = name → valid_name name = true →
     team_name_step gid name s =
     mkOutcome TeamNameTaken (entering_team_name gid) s).
Proof.
  intros Hi Hg Hor. split; [|split; [|split]].
  - intros text.
    destruct (players_step_clash text s gid uid chat name i r Hi Hg Hor)
      as (Hs & Hc & _). by split.
  - intros p g Hp Hgame Ha.
    destruct (players_step_clash (Some p) s gid uid chat name i r Hi Hg Hor)
      as (_ & _ & Hdup). by apply (Hdup p g).
  - intros st g Hu Hgame Ha. unfold choose_game, session_scope.
    rewrite (game_open_Some s gid g Hgame Ha).
    rewrite (existsb_rows _ (registrations s) i r Hi); [done|]. simpl.
    apply andb_true_iff. split; by apply bool_decide_eq_true_2.
  - intros Hn Hv. unfold team_name_step, session_scope. rewrite Hv. simpl.
    rewrite (existsb_rows _ (registrations s) i r Hi); [done|]. simpl.
    apply andb_true_iff. split; by apply bool_decide_eq_true_2.
Qed.

Lemma duplicate_registration_rejected_witness :
  (∀ text,
     store (players_step text 1 "A" 100 100 scenario_one_team) = scenario_one_team ∧
     is_created (answer (players_step text 1 "A" 100 100 scenario_one_team)) = false) ∧
  (∀ p g, 1 <= p <= 12 → games scenario_one_team !! 1 = Some g → is_active g = true →
     players_step (Some p) 1 "A" 100 100 scenario_one_team =
     mkOutcome DuplicateOrNameTaken (entering_players 1 "A") scenario_one_team) ∧
  (∀ st g, user_id (mkRegistration 100 100 1 "A" 4 CONFIRMED) = 100 →
     games scenario_one_team !! 1 = Some g → is_active g = true →
     choose_game st 100 1 scenario_one_team =
     mkOutcome AlreadyRegistered st scenario_one_team) ∧
  (team_name (mkRegistration 100 100 1 "A" 4 CONFIRMED) = "A" →
   valid_name "A" = true →
   team_name_step 1 "A" scenario_one_team =
   mkOutcome TeamNameTaken (entering_team_name 1) scenario_one_team).
Proof.
  apply (duplicate_registration_rejected scenario_one_team 1 100 100 "A" 1
           (mkRegistration 100 100 1 "A" 4 CONFIRMED)).
  - vm_compute. reflexivity.
  - reflexivity.
  - left. reflexivity.
Defined.

(** Claim C6.  For a game that does not exist or whose [is_active] is
    false, [players_step] leaves the store as it was and creates nothing;
    with players in 1..12 its answer is that the game is unavailable.
    [choose_game] refuses the same way and does not start the dialogue. *)
Theorem inactive_game_rejected s gid :
  games s !! gid = None ∨ (∃ g, games s !! gid = Some g ∧ is_active g = false) →
  (∀ text name uid chat,
     store (players_step text gid name uid chat s) = s ∧
     is_created (answer (players_step text gid name uid chat s)) = false) ∧
  (∀ p name uid chat, 1 <= p <= 12 →
     players_step (Some p) gid name uid chat s =
     mkOutcome GameUnavailable no_state s) ∧
  (∀ st uid, choose_game st uid gid s = mkOutcome GameUnavailable st s).
Proof.
  intros Hgame.
  assert (Hopen : game_open s gid = None).
  { unfold game_open. destruct Hgame as [-> | (g & -> & ->)]; done. }
  split; [|split].
  - intros text name uid chat. unfold players_step, session_scope.
    destruct text as [p|]; [|done].
    destruct (valid_players p); simpl; [|done]. by rewrite Hopen.
  - intros p name uid chat Hp. unfold players_step, session_scope.
    rewrite (valid_players_true p Hp). simpl. by rewrite Hopen.
  - intros st uid. unfold choose_game, session_scope. by rewrite Hopen.
Qed.

Lemma inactive_game_rejected_witness :
  (∀ text name uid chat,
     store (players_step text 1 name uid chat closed_db) = closed_db ∧
     is_created (answer (players_step text 1 name uid chat closed_db)) = false) ∧
  (∀ p name uid chat, 1 <= p <= 12 →
     players_step (Some p) 1 name uid chat closed_db =
     mkOutcome GameUnavailable no_state closed_db) ∧
  (∀ st uid, choose_game st uid 1 closed_db = mkOutcome GameUnavailable st closed_db).
Proof.
  apply (inactive_game_rejected closed_db 1).
  right. exists (mkGame "quiz" (Some 2) (Some 10) false). split; reflexivity.
Defined.

(** ** Frame of the edits and deletions *)

Lemma owned_by_Some uid o r :
  owned_by uid o = Some r → o = Some r ∧ user_id r = uid.
Proof.
  unfold owned_by. destruct o as [r0|]; [|done].
  case_bool_decide; [|done]. by intros [= ->].
Qed.

(** Claim C7.  [edit_players_apply] on registration [reg_id] and
    [delete_registration] of it leave every other registration row, of any
    game, exactly as it was, and leave the table of games as it was;
    this holds whether the operation succeeds or is refused. *)
Theorem other_registrations_untouched text st reg_id uid s j :
  j ≠ reg_id →
  registrations (store (edit_players_apply text reg_id uid s)) !! j =
    registrations s !! j ∧
  registrations (store (delete_registration st reg_id uid s)) !! j =
    registrations s !! j ∧
  games (store (edit_players_apply text reg_id uid s)) = games s ∧
  games (store (delete_registration st reg_id uid s)) = games s.
Proof.
  intros Hne.
  assert (Hedit :
    registrations (store (edit_players_apply text reg_id uid s)) !! j =
      registrations s !! j ∧
    games (store (edit_players_apply text reg_id uid s)) = games s).
  { unfold edit_players_apply, session_scope.
    destruct text as [p|]; [|done].
    destruct (valid_players p); simpl; [|done].
    destruct (owned_by uid (registrations s !! reg_id)) as [reg|]; [|done].
    destruct (games s !! game_id reg); simpl; [|done].
    by rewrite !lookup_insert_ne. }
  assert (Hdel :
    registrations (store (delete_registration st reg_id uid s)) !! j =
      registrations s !! j ∧
    games (store (delete_registration st reg_id uid s)) = games s).
  { unfold delete_registration, session_scope.
    destruct (owned_by uid (registrations s !! reg_id)); simpl; [|done].
    by rewrite lookup_delete_ne. }
  destruct Hedit, Hdel. done.
Qed.

Lemma other_registrations_untouched_witness :
  registrations (store (edit_players_apply (Some 7) 1 100 scenario_two_teams)) !! 2 =
    registrations scenario_two_teams !! 2 ∧
  registrations (store (delete_registration no_state 1 100 scenario_two_teams)) !! 2 =
    registrations scenario_two_teams !! 2 ∧
  games (store (edit_players_apply (Some 7) 1 100 scenario_two_teams)) =
    games scenario_two_teams ∧
  games (store (delete_registration no_state 1 100 scenario_two_teams)) =
    games scenario_two_teams.
Proof.
  apply (other_registrations_untouched (Some 7) no_state 1 100 scenario_two_teams 2).
  lia.
Defined.

(** ** Deleting a game *)

Lemma is_admin_true admin_ids uid : uid ∈ admin_ids → is_admin admin_ids uid = true.
Proof. intros Hin. unfold is_admin. by apply bool_decide_eq_true_2. Qed.

(** What [admin_delete_game] writes for an administrator: the row of the
    game is removed and the table of registrations is left as it was. *)
Lemma admin_delete_game_row admin_ids st uid gid s g :
  uid ∈ admin_ids → games s !! gid = Some g →
  admin_delete_game admin_ids st uid gid s =
  mkOutcome GameDeleted st (mkDb (delete gid (games s)) (registrations s)).
Proof.
  intros Hadm Hg. unfold admin_delete_game, session_scope.
  by rewrite (is_admin_true admin_ids uid Hadm), Hg.
Qed.

(** Claim C8 at its failing input.  Two games with one registration each;
    the administrator deletes game 1.  The handler answers that the game
    was deleted and the row of game 1 is gone, but the registration of
    game 1 is still stored, now without its game; game 2 and its
    registration are as before. *)
Theorem delete_game_leaves_registrations :
  registrations two_games_db !! 1 =
    Some (mkRegistration 100 100 1 "A" 4 CONFIRMED) ∧
  answer (admin_delete_game [7] no_state 7 1 two_games_db) = GameDeleted ∧
  games (store (admin_delete_game [7] no_state 7 1 two_games_db)) !! 1 = None ∧
  registrations (store (admin_delete_game [7] no_state 7 1 two_games_db)) !! 1 =
    Some (mkRegistration 100 100 1 "A" 4 CONFIRMED) ∧
  games (store (admin_delete_game [7] no_state 7 1 two_games_db)) !! 2 =
    Some (mkGame "darts" None None true) ∧
  registrations (store (admin_delete_game [7] no_state 7 1 two_games_db)) !! 2 =
    Some (mkRegistration 100 100 2 "A" 3 CONFIRMED).
Proof. vm_compute. repeat split; reflexivity. Qed.

(** ** The status column *)

Lemma edit_status_domain g ct cp p :
  edit_status g ct cp p = CONFIRMED ∨ edit_status g ct cp p = WAITLIST.
Proof. unfold edit_status. destruct (_ || _); auto. Qed.

Section StatusColumn.

Variable admin_ids : list Z.

(** After an operation, a row's status is one of the two strings or is the
    status that row had before. *)
Lemma apply_op_status o s i r' :
  registrations (apply_op admin_ids o s) !! i = Some r' →
  status_ok r' ∨ (∃ r, registrations s !! i = Some r ∧ status r' = status r).
Proof.
  assert (Hsame : registrations s !! i = Some r' →
    status_ok r' ∨ (∃ r, registrations s !! i = Some r ∧ status r' = status r))
    by eauto.
  destruct o as [text gid name uid chat | text reg_id uid | name reg_id uid
                | reg_id uid | uid gid | uid gid | ttl tc pc active]; simpl.
  - unfold players_step, session_scope, flush_insert.
    destruct text as [p|]; [|done].
    destruct (valid_players p); simpl; [|done].
    destruct (game_open s gid) as [g|]; [|done].
    destruct (unique_violation _ _ _); simpl; [done|].
    destruct (decide (i = next_id (registrations s))) as [->|Hne].
    + rewrite lookup_insert_eq. intros [= <-]. left. apply create_status_domain.
    + by rewrite lookup_insert_ne.
  - unfold edit_players_apply, session_scope.
    destruct text as [p|]; [|done].
    destruct (valid_players p); simpl; [|done].
    destruct (owned_by uid (registrations s !! reg_id)) as [reg|]; [|done].
    destruct (games s !! game_id reg); simpl; [|done].
    destruct (decide (i = reg_id)) as [->|Hne].
    + rewrite lookup_insert_eq. intros [= <-]. left. apply edit_status_domain.
    + by rewrite !lookup_insert_ne.
  - unfold edit_name_apply, session_scope, flush_update.
    destruct (valid_name name); simpl; [|done].
    destruct (owned_by uid (registrations s !! reg_id)) as [reg|] eqn:Hown; [|done].
    apply owned_by_Some in Hown as [Hreg _].
    destruct (existsb _ _); [done|].
    destruct (unique_violation _ _ _); simpl; [done|].
    destruct (decide (i = reg_id)) as [->|Hne].
    + rewrite lookup_insert_eq. intros [= <-]. right. by exists reg.
    + by rewrite lookup_insert_ne.
  - unfold delete_registration, session_scope.
    destruct (owned_by uid (registrations s !! reg_id)); simpl; [|done].
    intros [_ Hi]%lookup_delete_Some. auto.
  - unfold admin_toggle_game, session_scope.
    destruct (is_admin admin_ids uid); simpl; [|done].
    by destruct (games s !! gid).
  - unfold admin_delete_game, session_scope.
    destruct (is_admin admin_ids uid); simpl; [|done].
    by destruct (games s !! gid).
  - unfold add_game_confirm, session_scope.
    by destruct (cap_fits tc && cap_fits pc).
Qed.

Lemma apply_op_status_domain o s :
  status_domain s → status_domain (apply_op admin_ids o s).
Proof.
  intros Hdom i r' Hi.
  destruct (apply_op_status o s i r' Hi) as [Hok | (r & Hr & Heq)]; [done|].
  unfold status_ok. rewrite Heq. apply (Hdom i r Hr).
Qed.

Lemma run_status_domain ops s :
  status_domain s → status_domain (run admin_ids ops s).
Proof.
  revert s. induction ops as [|o ops IH]; intros s Hdom; simpl; [done|].
  apply IH. by apply apply_op_status_domain.
Qed.

(** Claim C9.  Every operation that writes the store (registering, editing
    the players or the team name, deleting a registration, toggling or
    deleting a game, adding a game) keeps the invariant that each stored
    status is "confirmed" or "waitlist"; the invariant therefore holds after
    any sequence of operations from the empty store; and a row whose status
    an operation has changed carries one of the two strings. *)
Theorem status_domain_invariant :
  (∀ o s, status_domain s → status_domain (apply_op admin_ids o s)) ∧
  (∀ ops i r, registrations (run admin_ids ops empty_db) !! i = Some r →
              status r = "confirmed" ∨ status r = "waitlist") ∧
  (∀ o s i r', registrations (apply_op admin_ids o s) !! i = Some r' →
               (status r' = "confirmed" ∨ status r' = "waitlist") ∨
               (∃ r, registrations s !! i = Some r ∧ status r' = status r)).
Proof.
  split; [|split].
  - apply apply_op_status_domain.
  - intros ops i r Hi.
    apply (run_status_domain ops empty_db (map_Forall_empty _) i r Hi).
  - apply apply_op_status.
Qed.

End StatusColumn.

Lemma status_domain_invariant_witness :
  status_domain (apply_op [7] (EditPlayers (Some 7) 1 100) scenario_two_teams) ∧
  (status (mkRegistration 100 100 1 "A" 7 WAITLIST) = "confirmed" ∨
   status (mkRegistration 100 100 1 "A" 7 WAITLIST) = "waitlist").
Proof.
  split.
  - apply (proj1 (status_domain_invariant [7])).
    intros i r Hi. apply (proj1 (proj2 (status_domain_invariant [7]))
                            (firstn 3 scenario_ops) i r Hi).
  - apply (proj1 (proj2 (status_domain_invariant [7])) scenario_ops 1).
    vm_compute. reflexivity.
Defined.

(** ** The edit path *)

Lemma owned_by_own uid r : user_id r = uid → owned_by uid (Some r) = Some r.
Proof. intros Hu. unfold owned_by. by rewrite bool_decide_eq_true_2. Qed.

(** Strict comparison of a count that includes the edited registration is
    the creation rule on the count of the others. *)
Lemma edit_status_succ g ot cp p :
  edit_status g (1 + ot) cp p = create_status g ot cp p.
Proof.
  unfold edit_status, create_status.
  destruct (teams_capacity g) as [N|]; [|done].
  destruct (Z.gtb_spec (1 + ot) N), (Z.geb_spec ot N); try done; lia.
Qed.

(** What [edit_players_apply] writes for the owner of a registration whose
    game exists. *)
Lemma edit_players_apply_written p reg_id uid s reg g :
  1 <= p <= 12 →
  registrations s !! reg_id = Some reg → user_id reg = uid →
  games s !! game_id reg = Some g →
  let gid := game_id reg in
  let st :=
    edit_status g
      ((if bool_decide (status reg = CONFIRMED) then 1 else 0) +
       count_confirmed_teams (without reg_id s) gid)
      (sum_confirmed_people (without reg_id s) gid None) p in
  edit_players_apply (Some p) reg_id uid s =
  mkOutcome PlayersUpdated no_state
    (mkDb (games s)
          (<[reg_id := set_status st (set_players p reg)]> (registrations s))).
Proof.
  intros Hp Hreg Hu Hg gid st. unfold edit_players_apply, session_scope.
  rewrite (valid_players_true p Hp), Hreg, (owned_by_own uid reg Hu). simpl.
  rewrite Hg.
  rewrite count_confirmed_teams_insert, sum_confirmed_people_exclude, without_insert.
  rewrite insert_insert_eq. unfold is_confirmed_in. simpl.
  rewrite (bool_decide_eq_true_2 (game_id reg = game_id reg)) by done. done.
Qed.

(** Claim C2, amended.  When the owner edits the player count of a
    registration that is already confirmed, the team count that the code
    compares with strict [>] includes the edited registration, the people
    sum excludes it, and the status written is the one the creation rule
    gives on the aggregates of the OTHER confirmed registrations of the
    game: WAITLIST exactly when the team limit is set and reached by the
    others, or the people limit is set and exceeded by the others' people
    plus the new player count. *)
Theorem edit_confirmed_status p reg_id uid s reg g :
  1 <= p <= 12 →
  registrations s !! reg_id = Some reg → user_id reg = uid →
  status reg = CONFIRMED →
  games s !! game_id reg = Some g →
  let gid := game_id reg in
  let others_teams := count_confirmed_teams (without reg_id s) gid in
  let others_people := sum_confirmed_people (without reg_id s) gid None in
  let out := edit_players_apply (Some p) reg_id uid s in
  count_confirmed_teams s gid = 1 + others_teams ∧
  sum_confirmed_people s gid (Some reg_id) = others_people ∧
  ∃ st,
    registrations (store out) =
      <[reg_id := set_status st (set_players p reg)]> (registrations s) ∧
    st = edit_status g (count_confirmed_teams s gid)
                       (sum_confirmed_people s gid (Some reg_id)) p ∧
    st = create_status g others_teams others_people p ∧
    (st = WAITLIST ↔
       (∃ N, teams_capacity g = Some N ∧ others_teams >= N) ∨
       (∃ P, people_capacity g = Some P ∧ others_people + p > P)).
Proof.
  intros Hp Hreg Hu Hst Hg gid others_teams others_people out.
  assert (Hcount : count_confirmed_teams s gid = 1 + others_teams).
  { rewrite (count_confirmed_teams_present s reg_id reg gid Hreg).
    unfold is_confirmed_in. by rewrite !bool_decide_eq_true_2. }
  split; [exact Hcount|]. split; [apply sum_confirmed_people_exclude|].
  exists (create_status g others_teams others_people p).
  subst out. rewrite (edit_players_apply_written p reg_id uid s reg g Hp Hreg Hu Hg).
  simpl. rewrite (bool_decide_eq_true_2 _ Hst), edit_status_succ.
  split; [done|]. split.
  - rewrite Hcount, sum_confirmed_people_exclude. symmetry. apply edit_status_succ.
  - split; [done|]. apply create_status_waitlist_iff.
Qed.

Lemma edit_confirmed_status_witness :
  count_confirmed_teams scenario_two_teams 1 =
    1 + count_confirmed_teams (without 1 scenario_two_teams) 1 ∧
  sum_confirmed_people scenario_two_teams 1 (Some 1) =
    sum_confirmed_people (without 1 scenario_two_teams) 1 None ∧
  ∃ st,
    registrations (store (edit_players_apply (Some 7) 1 100 scenario_two_teams)) =
      <[1 := set_status st (set_players 7 (mkRegistration 100 100 1 "A" 4 CONFIRMED))]>
        (registrations scenario_two_teams) ∧
    st = edit_status scenario_game (count_confirmed_teams scenario_two_teams 1)
           (sum_confirmed_people scenario_two_teams 1 (Some 1)) 7 ∧
    st = create_status scenario_game
           (count_confirmed_teams (without 1 scenario_two_teams) 1)
           (sum_confirmed_people (without 1 scenario_two_teams) 1 None) 7 ∧
    (st = WAITLIST ↔
       (∃ N, teams_capacity scenario_game = Some N ∧
             count_confirmed_teams (without 1 scenario_two_teams) 1 >= N) ∨
       (∃ P, people_capacity scenario_game = Some P ∧
             sum_confirmed_people (without 1 scenario_two_teams) 1 None + 7 > P)).
Proof.
  apply (edit_confirmed_status 7 1 100 scenario_two_teams
           (mkRegistration 100 100 1 "A" 4 CONFIRMED) scenario_game).
  - lia.
  - vm_compute. reflexivity.
  - reflexivity.
  - reflexivity.
  - vm_compute. reflexivity.
Defined.

(** Claim C2 as stated fails: team A is confirmed, the other confirmed teams
    number 1, and a strict comparison of that number with the limit 1 would
    keep A confirmed; the code sends A to the waitlist. *)
Lemma edit_confirmed_not_as_specified :
  registrations overshoot_db !! 1 = Some (mkRegistration 100 100 1 "A" 1 CONFIRMED) ∧
  games overshoot_db !! 1 = Some one_team_game ∧
  count_confirmed_teams (without 1 overshoot_db) 1 = 1 ∧
  sum_confirmed_people (without 1 overshoot_db) 1 None = 1 ∧
  edit_status_as_specified one_team_game 1 1 true 1 = CONFIRMED ∧
  registrations (store (edit_players_apply (Some 1) 1 100 overshoot_db)) !! 1 =
    Some (mkRegistration 100 100 1 "A" 1 WAITLIST) ∧
  WAITLIST ≠ CONFIRMED.
Proof. vm_compute. repeat split; done. Qed.

(** Claim C3 at its failing input.  Team B is on the waitlist, as the create
    path decided with one other team confirmed.  Re-running the edit path
    with B's unchanged player count, the aggregates of the others being
    unchanged, turns B confirmed, a second confirmed team against the limit
    of one; re-running it once more sends B back to the waitlist. *)
Theorem reedit_changes_status :
  registrations waitlisted_db !! 2 =
    Some (mkRegistration 200 200 1 "B" 1 WAITLIST) ∧
  count_confirmed_teams (without 2 waitlisted_db) 1 = 1 ∧
  sum_confirmed_people (without 2 waitlisted_db) 1 None = 1 ∧
  create_status one_team_game 1 1 1 = WAITLIST ∧
  registrations (store (edit_players_apply (Some 1) 2 200 waitlisted_db)) !! 2 =
    Some (mkRegistration 200 200 1 "B" 1 CONFIRMED) ∧
  count_confirmed_teams (store (edit_players_apply (Some 1) 2 200 waitlisted_db)) 1 = 2 ∧
  registrations
    (store (edit_players_apply (Some 1) 2 200
              (store (edit_players_apply (Some 1) 2 200 waitlisted_db)))) !! 2 =
    Some (mkRegistration 200 200 1 "B" 1 WAITLIST).
Proof. vm_compute. repeat split; done. Qed.

(** ** The transitions of the store *)

Lemma existsb_rows_false {A} (f : Z * A → bool) (m : gmap Z A) i x :
  existsb f (map_to_list m) = false → m !! i = Some x → f (i, x) = false.
Proof.
  intros Hex Hi. destruct (f (i, x)) eqn:Hf; [|done].
  by rewrite (existsb_rows f m i x Hi Hf) in Hex.
Qed.

Lemma valid_players_range p : valid_players p = true → 1 <= p <= 12.
Proof. unfold valid_players. intros [H1 H2]%andb_true_iff. lia. Qed.

Lemma game_open_inv s gid g :
  game_open s gid = Some g → games s !! gid = Some g ∧ is_active g = true.
Proof.
  unfold game_open. destruct (games s !! gid) as [g0|]; [|done].
  destruct (is_active g0) eqn:Ha; [|done]. by intros [= <-].
Qed.

Lemma unique_violation_no_clash s uid chat gid name p st :
  unique_violation (next_id (registrations s))
    (mkRegistration uid chat gid name p st) (registrations s) = false →
  no_clash s gid uid name.
Proof.
  intros Hv i r Hi Hg.
  pose proof (existsb_rows_false _ _ i r Hv Hi) as Hf. simpl in Hf.
  pose proof (lookup_lt_next_id _ _ _ Hi) as Hlt.
  rewrite (bool_decide_eq_true_2 (i ≠ next_id (registrations s))) in Hf by lia.
  rewrite (bool_decide_eq_true_2 (game_id r = gid)) in Hf by done. simpl in Hf.
  apply orb_false_iff in Hf as [Hu Hn].
  split; intros Heq.
  - by rewrite (bool_decide_eq_true_2 _ Heq) in Hu.
  - by rewrite (bool_decide_eq_true_2 _ Heq) in Hn.
Qed.

(** Every operation is one transition of the store. *)
Lemma apply_op_transition admin_ids o s :
  transition admin_ids s o (apply_op admin_ids o s).
Proof.
  destruct o as [text gid name uid chat | text reg_id uid | name reg_id uid
                | reg_id uid | uid gid | uid gid | ttl tc pc active]; simpl.
  - unfold players_step, session_scope, flush_insert.
    destruct text as [p|]; [|constructor].
    destruct (valid_players p) eqn:Hv; simpl; [|constructor].
    destruct (game_open s gid) as [g|] eqn:Hopen; [|constructor].
    apply game_open_inv in Hopen as [Hg Ha].
    destruct (unique_violation _ _ _) eqn:Hu; simpl; [constructor|].
    apply t_register; auto using valid_players_range.
    by apply unique_violation_no_clash in Hu.
  - unfold edit_players_apply, session_scope.
    destruct text as [p|]; [|constructor].
    destruct (valid_players p) eqn:Hv; simpl; [|constructor].
    destruct (owned_by uid (registrations s !! reg_id)) as [reg|] eqn:Hown;
      [|constructor].
    apply owned_by_Some in Hown as [Hreg Hu].
    destruct (games s !! game_id reg) as [g|] eqn:Hg; simpl; [|constructor].
    rewrite count_confirmed_teams_insert, sum_confirmed_people_exclude, without_insert.
    rewrite insert_insert_eq. unfold is_confirmed_in at 1. simpl.
    rewrite (bool_decide_eq_true_2 (game_id reg = game_id reg)) by done. simpl.
    apply t_edit_players; auto using valid_players_range.
  - unfold edit_name_apply, session_scope, flush_update.
    destruct (valid_name name) eqn:Hv; simpl; [|constructor].
    destruct (owned_by uid (registrations s !! reg_id)) as [reg|] eqn:Hown;
      [|constructor].
    apply owned_by_Some in Hown as [Hreg Hu].
    destruct (existsb _ _) eqn:Hex; [constructor|].
    destruct (unique_violation _ _ _); simpl; [constructor|].
    apply t_rename; auto.
    intros j r Hj Hne Hg Hn.
    pose proof (existsb_rows_false _ _ j r Hex Hj) as Hf. simpl in Hf.
    by rewrite !bool_decide_eq_true_2 in Hf.
  - unfold delete_registration, session_scope.
    destruct (owned_by uid (registrations s !! reg_id)) as [reg|] eqn:Hown;
      simpl; [|constructor].
    apply owned_by_Some in Hown as [Hreg Hu]. by apply (t_delete _ _ _ _ reg).
  - unfold admin_toggle_game, session_scope, is_admin.
    case_bool_decide; simpl; [|constructor].
    destruct (games s !! gid) as [g|] eqn:Hg; simpl; [|constructor].
    by apply t_toggle.
  - unfold admin_delete_game, session_scope, is_admin.
    case_bool_decide; simpl; [|constructor].
    destruct (games s !! gid) as [g|] eqn:Hg; simpl; [|constructor].
    by apply (t_delete_game _ _ _ _ g).
  - unfold add_game_confirm, session_scope.
    destruct (cap_fits tc) eqn:Htc, (cap_fits pc) eqn:Hpc; simpl;
      try constructor; done.
Qed.

(** ** Invariants of the store *)

Lemma run_invariant admin_ids (I : db → Prop) (ok : op → Prop) :
  (∀ o s, ok o → I s → I (apply_op admin_ids o s)) →
  ∀ ops s, Forall ok ops → I s → I (run admin_ids ops s).
Proof.
  intros Hstep ops. induction ops as [|o ops IH]; intros s Hok HI; simpl; [done|].
  inversion Hok; subst. apply IH; [done|]. by apply Hstep.
Qed.

Lemma unique_store_insert s i r :
  unique_store s →
  (∀ j rj, registrations s !! j = Some rj → j ≠ i → game_id rj = game_id r →
           user_id rj ≠ user_id r ∧ team_name rj ≠ team_name r) →
  unique_store (mkDb (games s) (<[i := r]> (registrations s))).
Proof.
  intros Hu Hnew a b ra rb Ha Hb Hg Hor. simpl in *.
  destruct (decide (a = i)) as [->|Hai], (decide (b = i)) as [->|Hbi]; [done|..].
  - rewrite lookup_insert_eq in Ha. rewrite lookup_insert_ne in Hb by done.
    simplify_eq. destruct (Hnew b rb Hb Hbi (eq_sym Hg)) as [Hu1 Hn1].
    destruct Hor; congruence.
  - rewrite lookup_insert_eq in Hb. rewrite lookup_insert_ne in Ha by done.
    simplify_eq. destruct (Hnew a ra Ha Hai Hg) as [Hu1 Hn1].
    destruct Hor; congruence.
  - rewrite lookup_insert_ne in Ha, Hb by done. by apply (Hu a b ra rb).
Qed.

Lemma unique_store_subset s s' :
  unique_store s →
  (∀ i r, registrations s' !! i = Some r → registrations s !! i = Some r) →
  unique_store s'.
Proof. intros Hu Hsub a b ra rb Ha Hb. apply (Hu a b ra rb); auto. Qed.

Lemma transition_unique admin_ids s o s' :
  transition admin_ids s o s' → unique_store s → unique_store s'.
Proof.
  intros Ht Hu.
  destruct Ht as [o | p gid name uid chat g Hp Hg Ha Hno
                 | p reg_id uid reg g Hp Hreg Huid Hg
                 | name reg_id uid reg Hv Hreg Huid Hfree
                 | reg_id uid reg Hreg Huid | uid gid g Hadm Hg
                 | uid gid g Hadm Hg | ttl tc pc active Hfit1 Hfit2].
  - done.
  - apply unique_store_insert; [done|]. simpl. intros j rj Hj _ Hgj.
    apply (Hno j rj Hj Hgj).
  - apply unique_store_insert; [done|]. simpl. intros j rj Hj Hne Hgj.
    split; intros Heq; apply Hne;
      apply (Hu j reg_id rj reg Hj Hreg Hgj); auto.
  - apply unique_store_insert; [done|]. simpl. intros j rj Hj Hne Hgj.
    split; [|by apply (Hfree j rj)].
    intros Heq. apply Hne. apply (Hu j reg_id rj reg Hj Hreg Hgj); auto.
  - apply (unique_store_subset s); [done|]. simpl.
    by intros i r [_ Hi]%lookup_delete_Some.
  - by apply (unique_store_subset s).
  - by apply (unique_store_subset s).
  - by apply (unique_store_subset s).
Qed.

Lemma transition_referential admin_ids s o s' :
  transition admin_ids s o s' → is_delete_game o = false →
  referential s → referential s'.
Proof.
  intros Ht Hkeep Hr.
  destruct Ht as [o | p gid name uid chat g Hp Hg Ha Hno
                 | p reg_id uid reg g Hp Hreg Huid Hg
                 | name reg_id uid reg Hv Hreg Huid Hfree
                 | reg_id uid reg Hreg Huid | uid gid g Hadm Hg
                 | uid gid g Hadm Hg | ttl tc pc active Hfit1 Hfit2];
    try discriminate Hkeep; unfold referential; simpl.
  - done.
  - apply map_Forall_insert_2; [by simpl; rewrite Hg | done].
  - apply map_Forall_insert_2; [by simpl; rewrite Hg | done].
  - apply map_Forall_insert_2; [simpl; apply (Hr reg_id reg Hreg) | done].
  - by apply map_Forall_delete.
  - intros i r Hi. simpl. destruct (decide (gid = game_id r)) as [->|Hne].
    + rewrite lookup_insert_eq. eauto.
    + rewrite lookup_insert_ne by done. apply (Hr i r Hi).
  - intros i r Hi. simpl.
    destruct (decide (next_id (games s) = game_id r)) as [Heq|Hne].
    + rewrite Heq, lookup_insert_eq. eauto.
    + rewrite lookup_insert_ne by done. apply (Hr i r Hi).
Qed.

Lemma transition_players_in_range admin_ids s o s' :
  transition admin_ids s o s' → players_in_range s → players_in_range s'.
Proof.
  intros Ht Hr.
  destruct Ht as [o | p gid name uid chat g Hp Hg Ha Hno
                 | p reg_id uid reg g Hp Hreg Huid Hg
                 | name reg_id uid reg Hv Hreg Huid Hfree
                 | reg_id uid reg Hreg Huid | uid gid g Hadm Hg
                 | uid gid g Hadm Hg | ttl tc pc active Hfit1 Hfit2];
    unfold players_in_range; simpl; try done.
  - by apply map_Forall_insert_2.
  - by apply map_Forall_insert_2.
  - apply map_Forall_insert_2; [simpl; apply (Hr reg_id reg Hreg) | done].
  - by apply map_Forall_delete.
Qed.

(** The uniqueness constraints hold in every store the handlers can
    produce: each operation keeps them, and the empty store has them. *)
Theorem unique_store_invariant admin_ids :
  (∀ o s, unique_store s → unique_store (apply_op admin_ids o s)) ∧
  (∀ ops i j ri rj,
     registrations (run admin_ids ops empty_db) !! i = Some ri →
     registrations (run admin_ids ops empty_db) !! j = Some rj →
     game_id ri = game_id rj →
     user_id ri = user_id rj ∨ team_name ri = team_name rj →
     i = j).
Proof.
  assert (Hstep : ∀ o s, unique_store s → unique_store (apply_op admin_ids o s)).
  { intros o s. apply (transition_unique admin_ids s o), apply_op_transition. }
  split; [exact Hstep|]. intros ops.
  apply (run_invariant admin_ids unique_store (λ _, True)); auto.
  - by apply Forall_true.
  - intros i j ri rj Hi. unfold empty_db in Hi. simpl in Hi.
    by rewrite lookup_empty in Hi.
Qed.

(** Every operation other than the deletion of a game keeps each
    registration's game stored; so every registration refers to a stored
    game after any sequence of operations, from the empty store, that
    deletes no game. *)
Theorem referential_without_game_deletion admin_ids :
  (∀ o s, is_delete_game o = false →
          referential s → referential (apply_op admin_ids o s)) ∧
  (∀ ops i r,
     Forall (λ o, is_delete_game o = false) ops →
     registrations (run admin_ids ops empty_db) !! i = Some r →
     is_Some (games (run admin_ids ops empty_db) !! game_id r)).
Proof.
  assert (Hstep : ∀ o s, is_delete_game o = false →
                         referential s → referential (apply_op admin_ids o s)).
  { intros o s Hkeep.
    apply (transition_referential admin_ids s o); [apply apply_op_transition|done]. }
  split; [exact Hstep|]. intros ops i r Hkeep.
  apply (run_invariant admin_ids referential _ Hstep ops empty_db Hkeep).
  apply map_Forall_empty.
Qed.

(** Every stored player count is between 1 and 12, in every store the
    handlers can produce. *)
Theorem players_in_range_invariant admin_ids :
  (∀ o s, players_in_range s → players_in_range (apply_op admin_ids o s)) ∧
  (∀ ops i r,
     registrations (run admin_ids ops empty_db) !! i = Some r →
     1 <= players r <= 12).
Proof.
  assert (Hstep : ∀ o s, players_in_range s →
                         players_in_range (apply_op admin_ids o s)).
  { intros o s. apply (transition_players_in_range admin_ids s o),
      apply_op_transition. }
  split; [exact Hstep|]. intros ops.
  apply (run_invariant admin_ids players_in_range (λ _, True)); auto.
  - by apply Forall_true.
  - apply map_Forall_empty.
Qed.

(** ** Selections that agree *)

Lemma elem_of_select_where cond regs i r :
  (i, r) ∈ select_where cond regs ↔ regs !! i = Some r ∧ cond i r = true.
Proof.
  unfold select_where.
  rewrite list_elem_of_In, filter_In, <- list_elem_of_In, elem_of_map_to_list.
  done.
Qed.

Lemma NoDup_select_where cond regs : NoDup (select_where cond regs).
Proof.
  unfold select_where. apply NoDup_ListNoDup, List.NoDup_filter, NoDup_ListNoDup.
  apply NoDup_map_to_list.
Qed.

(** Two tables with the same rows where [cond] holds give the same
    selection, up to order. *)
Lemma select_where_agree cond1 cond2 regs1 regs2 :
  (∀ i r, regs1 !! i = Some r ∧ cond1 i r = true ↔
          regs2 !! i = Some r ∧ cond2 i r = true) →
  select_where cond1 regs1 ≡ₚ select_where cond2 regs2.
Proof.
  intros Hagree. apply NoDup_Permutation; try apply NoDup_select_where.
  intros [i r]. rewrite !elem_of_select_where. apply Hagree.
Qed.

Lemma is_confirmed_in_inv gid r :
  is_confirmed_in gid r = true ↔ game_id r = gid ∧ status r = CONFIRMED.
Proof.
  unfold is_confirmed_in. rewrite andb_true_iff, !bool_decide_eq_true. done.
Qed.

(** The aggregates of a game depend only on the rows of that game. *)
Lemma aggregates_agree s s' gid :
  (∀ i r, game_id r = gid →
          (registrations s !! i = Some r ↔ registrations s' !! i = Some r)) →
  count_confirmed_teams s gid = count_confirmed_teams s' gid ∧
  sum_confirmed_people s gid None = sum_confirmed_people s' gid None ∧
  count_waitlist_teams s gid = count_waitlist_teams s' gid ∧
  count_all_teams s gid = count_all_teams s' gid.
Proof.
  intros Hrows.
  unfold count_confirmed_teams, sum_confirmed_people, count_waitlist_teams,
    count_all_teams.
  repeat split; (apply count_rows_perm || apply sum_players_perm);
    apply select_where_agree; intros i r.
  - rewrite is_confirmed_in_inv. specialize (Hrows i r). tauto.
  - rewrite andb_true_r, is_confirmed_in_inv. specialize (Hrows i r). tauto.
  - rewrite andb_true_iff, !bool_decide_eq_true. specialize (Hrows i r). tauto.
  - rewrite bool_decide_eq_true. specialize (Hrows i r). tauto.
Qed.

Lemma sum_confirmed_people_insert s i r gid :
  sum_confirmed_people (mkDb (games s) (<[i := r]> (registrations s))) gid None =
  (if is_confirmed_in gid r then players r else 0) +
  sum_confirmed_people (without i s) gid None.
Proof.
  unfold sum_confirmed_people. simpl.
  rewrite (sum_players_perm _ _ (select_where_insert _ _ i r)).
  destruct (is_confirmed_in gid r); simpl; lia.
Qed.

Lemma sum_confirmed_people_present s i r gid :
  registrations s !! i = Some r →
  sum_confirmed_people s gid None =
  (if is_confirmed_in gid r then players r else 0) +
  sum_confirmed_people (without i s) gid None.
Proof.
  intros Hi. unfold sum_confirmed_people. simpl.
  rewrite (sum_players_perm _ _ (select_where_present _ _ i r Hi)).
  destruct (is_confirmed_in gid r); simpl; lia.
Qed.

Lemma without_absent s i :
  registrations s !! i = None → registrations (without i s) = registrations s.
Proof. intros Hi. unfold without. simpl. by apply delete_id. Qed.

Lemma aggregates_regs s s' gid e :
  registrations s = registrations s' →
  count_confirmed_teams s gid = count_confirmed_teams s' gid ∧
  sum_confirmed_people s gid e = sum_confirmed_people s' gid e ∧
  count_waitlist_teams s gid = count_waitlist_teams s' gid.
Proof.
  intros Heq.
  unfold count_confirmed_teams, sum_confirmed_people, count_waitlist_teams.
  by rewrite Heq.
Qed.

(** ** Aggregates after a registration *)

Lemma select_where_fresh cond regs i r :
  regs !! i = None →
  select_where cond (<[i := r]> regs) ≡ₚ
    (if cond i r then [(i, r)] else []) ++ select_where cond regs.
Proof.
  intros Hi. rewrite select_where_insert. by rewrite (delete_id regs i Hi).
Qed.

Lemma select_where_none cond regs :
  (∀ i r, regs !! i = Some r → cond i r = false) → select_where cond regs = [].
Proof.
  intros Hnone. apply Permutation_nil_r.
  rewrite (select_where_agree cond cond regs ∅).
  - unfold select_where. by rewrite map_to_list_empty.
  - intros i r. rewrite lookup_empty. split; intros [Hi Hc]; [|done].
    by rewrite (Hnone i r Hi) in Hc.
Qed.

(** The aggregates of the game after a row is added under a fresh key. *)
Lemma aggregates_fresh s i r gid :
  registrations s !! i = None → game_id r = gid →
  let s1 := mkDb (games s) (<[i := r]> (registrations s)) in
  count_confirmed_teams s1 gid =
    count_confirmed_teams s gid + (if bool_decide (status r = CONFIRMED) then 1 else 0) ∧
  sum_confirmed_people s1 gid None =
    sum_confirmed_people s gid None +
    (if bool_decide (status r = CONFIRMED) then players r else 0) ∧
  count_waitlist_teams s1 gid =
    count_waitlist_teams s gid + (if bool_decide (status r = WAITLIST) then 1 else 0) ∧
  count_all_teams s1 gid = count_all_teams s gid + 1.
Proof.
  intros Hi Hg s1.
  unfold count_confirmed_teams, sum_confirmed_people, count_waitlist_teams,
    count_all_teams, is_confirmed_in. subst s1. simpl.
  rewrite !(count_rows_perm _ _ (select_where_fresh _ _ i r Hi)).
  rewrite (sum_players_perm _ _ (select_where_fresh _ _ i r Hi)).
  rewrite (bool_decide_eq_true_2 (game_id r = gid) Hg). simpl.
  unfold count_rows.
  destruct (bool_decide (status r = CONFIRMED)),
           (bool_decide (status r = WAITLIST)); simpl; repeat split; lia.
Qed.

(** What a successful registration does to the aggregates of its game and
    of the other games: a confirmed team adds one team and its players to
    the confirmed aggregates, a waitlisted one adds one to the waitlist,
    and the figures of the answer are those of the new store. *)
Theorem players_step_aggregates s gid uid chat p name g :
  1 <= p <= 12 →
  games s !! gid = Some g → is_active g = true →
  no_clash s gid uid name →
  let out := players_step (Some p) gid name uid chat s in
  let st := create_status g (count_confirmed_teams s gid)
              (sum_confirmed_people s gid None) p in
  answer out =
    RegistrationCreated st
      (count_confirmed_teams s gid + (if bool_decide (st = CONFIRMED) then 1 else 0))
      (count_waitlist_teams s gid + (if bool_decide (st = CONFIRMED) then 0 else 1))
      (sum_confirmed_people s gid None + (if bool_decide (st = CONFIRMED) then p else 0)) ∧
  count_confirmed_teams (store out) gid =
    count_confirmed_teams s gid + (if bool_decide (st = CONFIRMED) then 1 else 0) ∧
  sum_confirmed_people (store out) gid None =
    sum_confirmed_people s gid None + (if bool_decide (st = CONFIRMED) then p else 0) ∧
  count_waitlist_teams (store out) gid =
    count_waitlist_teams s gid + (if bool_decide (st = CONFIRMED) then 0 else 1) ∧
  (∀ gid', gid' ≠ gid →
     count_confirmed_teams (store out) gid' = count_confirmed_teams s gid' ∧
     sum_confirmed_people (store out) gid' None = sum_confirmed_people s gid' None ∧
     count_waitlist_teams (store out) gid' = count_waitlist_teams s gid').
Proof.
  intros Hp Hg Ha Hno out st. subst out.
  rewrite (players_step_created s gid uid chat p name g Hp Hg Ha Hno). simpl.
  fold st.
  set (r := mkRegistration uid chat gid name p st).
  destruct (aggregates_fresh s (next_id (registrations s)) r gid
              (next_id_fresh _) eq_refl) as (Hc & Hs & Hw & _).
  simpl in Hc, Hs, Hw.
  assert (Hwl : (if bool_decide (st = WAITLIST) then 1 else 0) =
                (if bool_decide (st = CONFIRMED) then 0 else 1)).
  { destruct (create_status_domain g (count_confirmed_teams s gid)
                (sum_confirmed_people s gid None) p) as [Hst | Hst];
      fold st in Hst; rewrite Hst; done. }
  rewrite Hwl in Hw. rewrite Hc, Hs, Hw. repeat split; try done.
  all: destruct (aggregates_agree
         (mkDb (games s) (<[next_id (registrations s) := r]> (registrations s)))
         s gid') as (Hc' & Hs' & Hw' & _);
    [ intros i ri Hgi; simpl;
      destruct (decide (i = next_id (registrations s))) as [->|Hne];
      [ rewrite lookup_insert_eq, next_id_fresh; split; [|done];
        intros [= <-]; simpl in Hgi; congruence
      | by rewrite lookup_insert_ne ]
    | done ].
Qed.

(** ** Capacity in the stores the handlers produce *)

Lemma create_status_confirmed_bounds g ct cp p :
  create_status g ct cp p = CONFIRMED →
  (∀ N, teams_capacity g = Some N → ct < N) ∧
  (∀ P, people_capacity g = Some P → cp + p <= P).
Proof.
  intros Hc%create_status_confirmed_iff. split.
  - intros N HN. destruct (Z_lt_ge_dec ct N); [done|].
    destruct Hc. left. eauto.
  - intros P HP. destruct (Z_le_gt_dec (cp + p) P); [done|].
    destruct Hc. right. eauto.
Qed.

Lemma edit_status_confirmed_bounds g ct cp p :
  edit_status g ct cp p = CONFIRMED →
  (∀ N, teams_capacity g = Some N → ct <= N) ∧
  (∀ P, people_capacity g = Some P → cp + p <= P).
Proof.
  unfold edit_status. intros Hc. split.
  - intros N HN. rewrite HN in Hc. destruct (Z.gtb_spec ct N); [done | lia].
  - intros P HP. rewrite HP in Hc.
    destruct (Z.gtb_spec (cp + p) P); [|lia].
    by rewrite orb_true_r in Hc.
Qed.

Lemma no_rows_no_aggregates s gid :
  (∀ i r, registrations s !! i = Some r → game_id r ≠ gid) →
  count_confirmed_teams s gid = 0 ∧ sum_confirmed_people s gid None = 0 ∧
  count_waitlist_teams s gid = 0 ∧ count_all_teams s gid = 0.
Proof.
  intros Hnone.
  unfold count_confirmed_teams, sum_confirmed_people, count_waitlist_teams,
    count_all_teams, is_confirmed_in.
  rewrite !select_where_none; [done|..]; intros i r Hi;
    by rewrite (bool_decide_eq_false_2 _ (Hnone i r Hi)).
Qed.

Lemma fresh_game_no_rows s :
  referential s →
  ∀ i r, registrations s !! i = Some r → game_id r ≠ next_id (games s).
Proof.
  intros Href i r Hi Heq. destruct (Href i r Hi) as [g Hg]. simpl in Hg.
  rewrite Heq, next_id_fresh in Hg. done.
Qed.

(** The aggregates of a game that a player-count edit does not concern. *)
Lemma aggregates_other_game s i r r' gid :
  registrations s !! i = Some r → game_id r' = game_id r → game_id r ≠ gid →
  count_confirmed_teams (mkDb (games s) (<[i := r']> (registrations s))) gid =
    count_confirmed_teams s gid ∧
  sum_confirmed_people (mkDb (games s) (<[i := r']> (registrations s))) gid None =
    sum_confirmed_people s gid None.
Proof.
  intros Hi Hg Hne.
  rewrite count_confirmed_teams_insert, sum_confirmed_people_insert.
  rewrite (count_confirmed_teams_present s i r gid Hi).
  rewrite (sum_confirmed_people_present s i r gid Hi).
  unfold is_confirmed_in.
  rewrite (bool_decide_eq_false_2 (game_id r' = gid)) by congruence.
  rewrite (bool_decide_eq_false_2 (game_id r = gid)) by done. done.
Qed.

Lemma sum_without_le s i gid :
  players_in_range s →
  sum_confirmed_people (without i s) gid None <= sum_confirmed_people s gid None.
Proof.
  intros Hr. destruct (registrations s !! i) as [r|] eqn:Hi.
  - rewrite (sum_confirmed_people_present s i r gid Hi).
    pose proof (Hr i r Hi) as Hp. simpl in Hp.
    destruct (is_confirmed_in gid r); lia.
  - destruct (aggregates_regs (without i s) s gid None (without_absent s i Hi))
      as (_ & -> & _). lia.
Qed.

Lemma count_without_le s i gid :
  count_confirmed_teams (without i s) gid <= count_confirmed_teams s gid.
Proof.
  destruct (registrations s !! i) as [r|] eqn:Hi.
  - rewrite (count_confirmed_teams_present s i r gid Hi).
    destruct (is_confirmed_in gid r); lia.
  - destruct (aggregates_regs (without i s) s gid None (without_absent s i Hi))
      as (-> & _). lia.
Qed.

Lemma transition_people_respected admin_ids s o s' :
  transition admin_ids s o s' → wizard_op o → is_delete_game o = false →
  referential s → players_in_range s →
  people_respected s → people_respected s'.
Proof.
  intros Ht Hwiz Hkeep Href Hrange Hpeople.
  destruct Ht as [o | p gid0 name uid chat g0 Hp Hg0 Ha Hno
                 | p reg_id uid reg g0 Hp Hreg Huid Hg0
                 | name reg_id uid reg Hv Hreg Huid Hfree
                 | reg_id uid reg Hreg Huid | uid gid0 g0 Hadm Hg0
                 | uid gid0 g0 Hadm Hg0 | ttl tc pc active Hfit1 Hfit2];
    try discriminate Hkeep;
    intros gid g P Hg HP; simpl in Hg.
  - by apply (Hpeople gid g P).
  - set (st := create_status g0 _ _ p).
    rewrite sum_confirmed_people_insert.
    destruct (aggregates_regs (without (next_id (registrations s)) s) s gid None
                (without_absent s _ (next_id_fresh _))) as (_ & -> & _).
    pose proof (Hpeople gid g P Hg HP) as Hold.
    destruct (is_confirmed_in gid _) eqn:Hc; [|lia].
    apply is_confirmed_in_inv in Hc as [<- Hst]. simpl in *. simplify_eq.
    destruct (create_status_confirmed_bounds _ _ _ _ Hst) as [_ Hb].
    specialize (Hb P HP). lia.
  - pose proof (Hpeople gid g P Hg HP) as Hold.
    rewrite sum_confirmed_people_insert.
    pose proof (sum_without_le s reg_id gid Hrange) as Hle.
    destruct (is_confirmed_in gid _) eqn:Hc; [|lia].
    apply is_confirmed_in_inv in Hc as [<- Hst]. simpl in *. simplify_eq.
    destruct (edit_status_confirmed_bounds _ _ _ _ Hst) as [_ Hb].
    specialize (Hb P HP). lia.
  - pose proof (Hpeople gid g P Hg HP) as Hold.
    rewrite sum_confirmed_people_insert.
    rewrite (sum_confirmed_people_present s reg_id reg gid Hreg) in Hold.
    done.
  - pose proof (Hpeople gid g P Hg HP) as Hold.
    pose proof (sum_without_le s reg_id gid Hrange) as Hle.
    unfold without in Hle. lia.
  - destruct (aggregates_regs
                (mkDb (<[gid0 := set_active (negb (is_active g0)) g0]> (games s))
                      (registrations s)) s gid None eq_refl) as (_ & -> & _).
    destruct (decide (gid0 = gid)) as [->|Hne].
    + rewrite lookup_insert_eq in Hg. simplify_eq. by apply (Hpeople gid g0 P).
    + rewrite lookup_insert_ne in Hg by done. by apply (Hpeople gid g P).
  - destruct (aggregates_regs
                (mkDb (<[next_id (games s) := mkGame ttl tc pc active]> (games s))
                      (registrations s)) s gid None eq_refl) as (_ & -> & _).
    destruct (decide (next_id (games s) = gid)) as [<-|Hne].
    + rewrite lookup_insert_eq in Hg. simplify_eq. simpl in HP. subst pc.
      destruct (no_rows_no_aggregates s (next_id (games s))
                  (fresh_game_no_rows s Href)) as (_ & -> & _).
      destruct Hwiz as [_ Hpc]. simpl in Hpc. lia.
    + rewrite lookup_insert_ne in Hg by done. by apply (Hpeople gid g P).
Qed.

Lemma transition_teams_respected admin_ids s o s' :
  transition admin_ids s o s' → wizard_op o → is_delete_game o = false →
  is_edit_players o = false →
  referential s →
  teams_respected s → teams_respected s'.
Proof.
  intros Ht Hwiz Hkeep Hnoedit Href Hteams.
  destruct Ht as [o | p gid0 name uid chat g0 Hp Hg0 Ha Hno
                 | p reg_id uid reg g0 Hp Hreg Huid Hg0
                 | name reg_id uid reg Hv Hreg Huid Hfree
                 | reg_id uid reg Hreg Huid | uid gid0 g0 Hadm Hg0
                 | uid gid0 g0 Hadm Hg0 | ttl tc pc active Hfit1 Hfit2];
    try discriminate Hnoedit; try discriminate Hkeep;
    intros gid g N Hg HN; simpl in Hg.
  - by apply (Hteams gid g N).
  - set (st := create_status g0 _ _ p).
    rewrite count_confirmed_teams_insert.
    destruct (aggregates_regs (without (next_id (registrations s)) s) s gid None
                (without_absent s _ (next_id_fresh _))) as (-> & _).
    pose proof (Hteams gid g N Hg HN) as Hold.
    destruct (is_confirmed_in gid _) eqn:Hc; [|lia].
    apply is_confirmed_in_inv in Hc as [<- Hst]. simpl in *. simplify_eq.
    destruct (create_status_confirmed_bounds _ _ _ _ Hst) as [Hb _].
    specialize (Hb N HN). lia.
  - pose proof (Hteams gid g N Hg HN) as Hold.
    rewrite count_confirmed_teams_insert.
    rewrite (count_confirmed_teams_present s reg_id reg gid Hreg) in Hold.
    done.
  - pose proof (Hteams gid g N Hg HN) as Hold.
    pose proof (count_without_le s reg_id gid) as Hle.
    unfold without in Hle. lia.
  - destruct (aggregates_regs
                (mkDb (<[gid0 := set_active (negb (is_active g0)) g0]> (games s))
                      (registrations s)) s gid None eq_refl) as (-> & _).
    destruct (decide (gid0 = gid)) as [->|Hne].
    + rewrite lookup_insert_eq in Hg. simplify_eq. by apply (Hteams gid g0 N).
    + rewrite lookup_insert_ne in Hg by done. by apply (Hteams gid g N).
  - destruct (aggregates_regs
                (mkDb (<[next_id (games s) := mkGame ttl tc pc active]> (games s))
                      (registrations s)) s gid None eq_refl) as (-> & _).
    destruct (decide (next_id (games s) = gid)) as [<-|Hne].
    + rewrite lookup_insert_eq in Hg. simplify_eq. simpl in HN. subst tc.
      destruct (no_rows_no_aggregates s (next_id (games s))
                  (fresh_game_no_rows s Href)) as (-> & _).
      destruct Hwiz as [Htc _]. simpl in Htc. lia.
    + rewrite lookup_insert_ne in Hg by done. by apply (Hteams gid g N).
Qed.

Lemma apply_op_people_safe admin_ids o s :
  wizard_op o ∧ is_delete_game o = false →
  people_safe s → people_safe (apply_op admin_ids o s).
Proof.
  intros [Hwiz Hkeep] (Href & Hrange & Hpeople).
  pose proof (apply_op_transition admin_ids o s) as Ht.
  split; [|split].
  - by apply (transition_referential admin_ids s o).
  - by apply (transition_players_in_range admin_ids s o).
  - by apply (transition_people_respected admin_ids s o).
Qed.

Lemma apply_op_teams_safe admin_ids o s :
  wizard_op o ∧ is_delete_game o = false ∧ is_edit_players o = false →
  teams_safe s → teams_safe (apply_op admin_ids o s).
Proof.
  intros (Hwiz & Hkeep & Hnoedit) (Href & Hteams).
  pose proof (apply_op_transition admin_ids o s) as Ht.
  split.
  - by apply (transition_referential admin_ids s o).
  - by apply (transition_teams_respected admin_ids s o).
Qed.

Lemma empty_db_safe : people_safe empty_db ∧ teams_safe empty_db.
Proof.
  assert (Hnone : ∀ gid g, games empty_db !! gid = Some g → False).
  { intros gid g Hg. unfold empty_db in Hg. simpl in Hg.
    by rewrite lookup_empty in Hg. }
  split; [split; [|split]|split].
  - apply map_Forall_empty.
  - apply map_Forall_empty.
  - intros gid g n Hg. destruct (Hnone gid g Hg).
  - apply map_Forall_empty.
  - intros gid g n Hg. destruct (Hnone gid g Hg).
Qed.

(** Whatever sequence of operations that deletes no game is run from the
    empty store, with games created with the limits the wizard accepts, the
    confirmed people of a game never exceed its people limit: registering,
    editing player counts or names, deleting registrations and toggling
    keep the sum within the limit. *)
Theorem people_limit_kept_without_game_deletion admin_ids ops gid g P :
  Forall wizard_op ops →
  Forall (λ o, is_delete_game o = false) ops →
  games (run admin_ids ops empty_db) !! gid = Some g →
  people_capacity g = Some P →
  sum_confirmed_people (run admin_ids ops empty_db) gid None <= P.
Proof.
  intros Hwiz Hkeep Hg HP.
  assert (Hok : Forall (λ o, wizard_op o ∧ is_delete_game o = false) ops).
  { apply Forall_and. by split. }
  destruct (run_invariant admin_ids people_safe _
              (apply_op_people_safe admin_ids) ops empty_db Hok
              (proj1 empty_db_safe)) as (_ & _ & Hpeople).
  by apply (Hpeople gid g P).
Qed.

Lemma people_limit_kept_without_game_deletion_witness :
  sum_confirmed_people (run [7] scenario_ops empty_db) 1 None <= 10.
Proof.
  apply (people_limit_kept_without_game_deletion [7] scenario_ops 1 scenario_game 10).
  - repeat constructor; simpl; lia.
  - repeat constructor.
  - vm_compute. reflexivity.
  - reflexivity.
Defined.

(** As long as, besides, no player count is edited, the confirmed teams of
    a game never exceed its team limit either. *)
Theorem team_limit_kept_without_deletion_or_edit admin_ids ops gid g N :
  Forall wizard_op ops →
  Forall (λ o, is_delete_game o = false) ops →
  Forall (λ o, is_edit_players o = false) ops →
  games (run admin_ids ops empty_db) !! gid = Some g →
  teams_capacity g = Some N →
  count_confirmed_teams (run admin_ids ops empty_db) gid <= N.
Proof.
  intros Hwiz Hkeep Hnoedit Hg HN.
  assert (Hok : Forall (λ o, wizard_op o ∧ is_delete_game o = false ∧
                             is_edit_players o = false) ops).
  { apply Forall_and. split; [done|]. apply Forall_and. by split. }
  destruct (run_invariant admin_ids teams_safe _
              (apply_op_teams_safe admin_ids) ops empty_db Hok
              (proj2 empty_db_safe)) as (_ & Hteams).
  by apply (Hteams gid g N).
Qed.

Lemma team_limit_kept_without_deletion_or_edit_witness :
  count_confirmed_teams (run [7] one_team_ops empty_db) 1 <= 1.
Proof.
  apply (team_limit_kept_without_deletion_or_edit [7] one_team_ops 1 one_team_game 1).
  - repeat constructor; simpl; lia.
  - repeat constructor.
  - repeat constructor.
  - vm_compute. reflexivity.
  - reflexivity.
Defined.

(** ** Ownership *)

Lemma owned_by_foreign s reg_id uid :
  registrations s !! reg_id = None ∨
  (∃ r, registrations s !! reg_id = Some r ∧ user_id r ≠ uid) →
  owned_by uid (registrations s !! reg_id) = None.
Proof.
  intros [-> | (r & -> & Hne)]; [done|]. unfold owned_by.
  by rewrite bool_decide_eq_false_2.
Qed.

(** A registration that does not exist, or belongs to another user, can be
    neither edited nor deleted: the three handlers answer that it was not
    found and leave the store as it was. *)
Theorem foreign_registration_refused s reg_id uid :
  registrations s !! reg_id = None ∨
  (∃ r, registrations s !! reg_id = Some r ∧ user_id r ≠ uid) →
  (∀ p, 1 <= p <= 12 →
     edit_players_apply (Some p) reg_id uid s =
     mkOutcome RegistrationNotFound no_state s) ∧
  (∀ name, valid_name name = true →
     edit_name_apply name reg_id uid s =
     mkOutcome RegistrationNotFound no_state s) ∧
  (∀ st, delete_registration st reg_id uid s =
         mkOutcome RegistrationNotFound st s) ∧
  (∀ text name,
     store (edit_players_apply text reg_id uid s) = s ∧
     store (edit_name_apply name reg_id uid s) = s).
Proof.
  intros Hforeign%owned_by_foreign. split; [|split; [|split]].
  - intros p Hp. unfold edit_players_apply, session_scope.
    by rewrite (valid_players_true p Hp), Hforeign.
  - intros name Hv. unfold edit_name_apply, session_scope.
    by rewrite Hv, Hforeign.
  - intros st. unfold delete_registration, session_scope. by rewrite Hforeign.
  - intros text name. split.
    + unfold edit_players_apply, session_scope. destruct text as [p|]; [|done].
      destruct (valid_players p); simpl; [|done]. by rewrite Hforeign.
    + unfold edit_name_apply, session_scope.
      destruct (valid_name name); simpl; [|done]. by rewrite Hforeign.
Qed.

Lemma foreign_registration_refused_witness :
  (∀ p, 1 <= p <= 12 →
     edit_players_apply (Some p) 1 200 scenario_two_teams =
     mkOutcome RegistrationNotFound no_state scenario_two_teams) ∧
  (∀ name, valid_name name = true →
     edit_name_apply name 1 200 scenario_two_teams =
     mkOutcome RegistrationNotFound no_state scenario_two_teams) ∧
  (∀ st, delete_registration st 1 200 scenario_two_teams =
         mkOutcome RegistrationNotFound st scenario_two_teams) ∧
  (∀ text name,
     store (edit_players_apply text 1 200 scenario_two_teams) = scenario_two_teams ∧
     store (edit_name_apply name 1 200 scenario_two_teams) = scenario_two_teams).
Proof.
  apply (foreign_registration_refused scenario_two_teams 1 200).
  right. exists (mkRegistration 100 100 1 "A" 4 CONFIRMED).
  split; [vm_compute; reflexivity | simpl; lia].
Defined.

(** ** Renaming a team *)

Lemma rename_no_violation s reg_id reg name :
  unique_store s → registrations s !! reg_id = Some reg →
  (∀ j r, registrations s !! j = Some r → j ≠ reg_id →
          game_id r = game_id reg → team_name r ≠ name) →
  unique_violation reg_id (set_team_name name reg) (registrations s) = false.
Proof.
  intros Hu Hreg Hfree. unfold unique_violation.
  destruct (existsb _ _) eqn:Hex; [|done].
  apply existsb_exists in Hex as ([j r] & Hin & Hc).
  apply list_elem_of_In, elem_of_map_to_list in Hin. simpl in *.
  apply andb_true_iff in Hc as [Hc Hor]. apply andb_true_iff in Hc as [Hne Hg].
  apply bool_decide_eq_true_1 in Hne, Hg.
  apply orb_true_iff in Hor as [H | H]; apply bool_decide_eq_true_1 in H.
  - destruct Hne. apply (Hu j reg_id r reg Hin Hreg Hg). by left.
  - destruct (Hfree j r Hin Hne Hg H).
Qed.

(** In a store that satisfies the uniqueness constraints, the owner's
    rename to a name of 2..40 characters has two outcomes only.  If another
    team of the same game bears the name, it is refused and nothing is
    written.  Otherwise the row gets the new name and keeps its user, game,
    players and status, and every other row is as before; in particular the
    save error is never answered, and teams of other games do not block the
    name. *)
Theorem edit_name_apply_outcomes s reg_id uid reg name :
  unique_store s → valid_name name = true →
  registrations s !! reg_id = Some reg → user_id reg = uid →
  ((∃ j r, registrations s !! j = Some r ∧ j ≠ reg_id ∧
           game_id r = game_id reg ∧ team_name r = name) →
   edit_name_apply name reg_id uid s =
   mkOutcome TeamNameTaken (entering_new_name reg_id) s) ∧
  ((∀ j r, registrations s !! j = Some r → j ≠ reg_id →
           game_id r = game_id reg → team_name r ≠ name) →
   edit_name_apply name reg_id uid s =
   mkOutcome TeamNameUpdated no_state
     (mkDb (games s)
        (<[reg_id := mkRegistration (user_id reg) (chat_id reg) (game_id reg) name
                       (players reg) (status reg)]> (registrations s)))) ∧
  answer (edit_name_apply name reg_id uid s) ≠ SaveFailed.
Proof.
  intros Hu Hv Hreg Huid.
  assert (Htaken : (∃ j r, registrations s !! j = Some r ∧ j ≠ reg_id ∧
                           game_id r = game_id reg ∧ team_name r = name) →
    edit_name_apply name reg_id uid s =
    mkOutcome TeamNameTaken (entering_new_name reg_id) s).
  { intros (j & r & Hj & Hne & Hg & Hn).
    unfold edit_name_apply, session_scope.
    rewrite Hv, Hreg, (owned_by_own uid reg Huid). simpl.
    rewrite (existsb_rows _ (registrations s) j r Hj); [done|]. simpl.
    by rewrite !bool_decide_eq_true_2. }
  assert (Hfree : (∀ j r, registrations s !! j = Some r → j ≠ reg_id →
                          game_id r = game_id reg → team_name r ≠ name) →
    edit_name_apply name reg_id uid s =
    mkOutcome TeamNameUpdated no_state
      (mkDb (games s) (<[reg_id := set_team_name name reg]> (registrations s)))).
  { intros Hfree. unfold edit_name_apply, session_scope, flush_update.
    rewrite Hv, Hreg, (owned_by_own uid reg Huid). simpl.
    rewrite (rename_no_violation s reg_id reg name Hu Hreg Hfree).
    destruct (existsb _ _) eqn:Hex; [|done].
    apply existsb_exists in Hex as ([j r] & Hin & Hc).
    apply list_elem_of_In, elem_of_map_to_list in Hin. simpl in Hc.
    apply andb_true_iff in Hc as [Hc Hne]. apply andb_true_iff in Hc as [Hg Hn].
    apply bool_decide_eq_true_1 in Hne, Hg, Hn.
    destruct (Hfree j r Hin Hne Hg Hn). }
  split; [exact Htaken|]. split; [exact Hfree|].
  unfold edit_name_apply, session_scope, flush_update.
  rewrite Hv, Hreg, (owned_by_own uid reg Huid). simpl.
  destruct (existsb _ _) eqn:Hex; [done|].
  rewrite (rename_no_violation s reg_id reg name Hu Hreg); [done|].
  intros j r Hj Hne Hg Hn.
  pose proof (existsb_rows_false _ _ j r Hex Hj) as Hf. simpl in Hf.
  by rewrite !bool_decide_eq_true_2 in Hf.
Qed.

Lemma reachable_unique admin_ids ops : unique_store (run admin_ids ops empty_db).
Proof.
  apply (run_invariant admin_ids unique_store (λ _, True)).
  - intros o s _. apply (transition_unique admin_ids s o), apply_op_transition.
  - by apply Forall_true.
  - intros i j ri rj Hi. unfold empty_db in Hi. simpl in Hi.
    by rewrite lookup_empty in Hi.
Qed.

Lemma edit_name_apply_outcomes_witness :
  edit_name_apply "Знатоки из Минска" 1 100 named_teams_db =
    mkOutcome TeamNameTaken (entering_new_name 1) named_teams_db ∧
  edit_name_apply "Совы" 1 100 named_teams_db =
    mkOutcome TeamNameUpdated no_state
      (mkDb (games named_teams_db)
         (<[1 := mkRegistration 100 100 1 "Совы" 4 CONFIRMED]>
            (registrations named_teams_db))) ∧
  answer (edit_name_apply "Совы" 1 100 named_teams_db) ≠ SaveFailed.
Proof.
  split; [|split].
  - apply (proj1 (edit_name_apply_outcomes named_teams_db 1 100
                    (mkRegistration 100 100 1 "Ants" 4 CONFIRMED)
                    "Знатоки из Минска"
                    (reachable_unique [] named_teams_ops) eq_refl
                    ltac:(vm_compute; reflexivity) eq_refl)).
    exists 2, (mkRegistration 200 200 1 "Знатоки из Минска" 5 CONFIRMED).
    split; [vm_compute; reflexivity|]. split; [lia|]. split; reflexivity.
  - apply (proj1 (proj2 (edit_name_apply_outcomes named_teams_db 1 100
                    (mkRegistration 100 100 1 "Ants" 4 CONFIRMED) "Совы"
                    (reachable_unique [] named_teams_ops) eq_refl
                    ltac:(vm_compute; reflexivity) eq_refl))).
    change (map_Forall
              (λ j r, j ≠ 1 →
                 game_id r = game_id (mkRegistration 100 100 1 "Ants" 4 CONFIRMED) →
                 team_name r ≠ "Совы")
              (registrations named_teams_db)).
    apply (bool_decide_unpack _). vm_compute. exact I.
  - apply (proj2 (proj2 (edit_name_apply_outcomes named_teams_db 1 100
                    (mkRegistration 100 100 1 "Ants" 4 CONFIRMED) "Совы"
                    (reachable_unique [] named_teams_ops) eq_refl
                    ltac:(vm_compute; reflexivity) eq_refl))).
Defined.

(** Renaming a team to the name it already bears is accepted and changes
    nothing in the store: the search for the name leaves the row itself
    out. *)
Theorem edit_name_apply_same_name s reg_id uid reg :
  unique_store s → valid_name (team_name reg) = true →
  registrations s !! reg_id = Some reg → user_id reg = uid →
  edit_name_apply (team_name reg) reg_id uid s =
  mkOutcome TeamNameUpdated no_state s.
Proof.
  intros Hu Hv Hreg Huid.
  assert (Hfree : ∀ j r, registrations s !! j = Some r → j ≠ reg_id →
                         game_id r = game_id reg → team_name r ≠ team_name reg).
  { intros j r Hj Hne Hg Hn. apply Hne.
    apply (Hu j reg_id r reg Hj Hreg Hg). by right. }
  unfold edit_name_apply, session_scope, flush_update.
  rewrite Hv, Hreg, (owned_by_own uid reg Huid). simpl.
  rewrite (rename_no_violation s reg_id reg _ Hu Hreg Hfree).
  destruct (existsb _ _) eqn:Hex.
  - apply existsb_exists in Hex as ([j r] & Hin & Hc).
    apply list_elem_of_In, elem_of_map_to_list in Hin. simpl in Hc.
    apply andb_true_iff in Hc as [Hc Hne]. apply andb_true_iff in Hc as [Hg Hn].
    apply bool_decide_eq_true_1 in Hne, Hg, Hn.
    destruct (Hfree j r Hin Hne Hg Hn).
  - f_equal. destruct s as [gs rs]. simpl in *. f_equal.
    apply insert_id. rewrite Hreg. by destruct reg.
Qed.

Lemma edit_name_apply_same_name_witness :
  edit_name_apply
    (team_name (mkRegistration 200 200 1 "Знатоки из Минска" 5 CONFIRMED)) 2 200
    named_teams_db =
  mkOutcome TeamNameUpdated no_state named_teams_db.
Proof.
  apply (edit_name_apply_same_name named_teams_db 2 200
           (mkRegistration 200 200 1 "Знатоки из Минска" 5 CONFIRMED)).
  - apply (reachable_unique [] named_teams_ops).
  - vm_compute. reflexivity.
  - vm_compute. reflexivity.
  - reflexivity.
Defined.

(** ** Registering and deleting *)

(** A registration that its owner deletes right after creating it leaves
    the store exactly as it was before the registration. *)
Theorem register_then_delete s gid uid chat p name g st :
  1 <= p <= 12 →
  games s !! gid = Some g → is_active g = true →
  no_clash s gid uid name →
  delete_registration st (next_id (registrations s)) uid
    (store (players_step (Some p) gid name uid chat s)) =
  mkOutcome RegistrationDeleted st s.
Proof.
  intros Hp Hg Ha Hno.
  rewrite (players_step_created s gid uid chat p name g Hp Hg Ha Hno). simpl.
  unfold delete_registration, session_scope. simpl.
  rewrite lookup_insert_eq. unfold owned_by. simpl.
  rewrite bool_decide_eq_true_2 by done. simpl.
  rewrite delete_insert_id by apply next_id_fresh. by destruct s.
Qed.

Lemma register_then_delete_witness :
  delete_registration no_state (next_id (registrations scenario_two_teams)) 300
    (store (players_step (Some 1) 1 "C" 300 300 scenario_two_teams)) =
  mkOutcome RegistrationDeleted no_state scenario_two_teams.
Proof.
  apply (register_then_delete scenario_two_teams 1 300 300 1 "C" scenario_game).
  - lia.
  - vm_compute. reflexivity.
  - reflexivity.
  - apply (bool_decide_unpack _). vm_compute. exact I.
Defined.

Lemma aggregates_present s i r gid :
  registrations s !! i = Some r → game_id r = gid →
  count_confirmed_teams s gid =
    count_confirmed_teams (without i s) gid +
    (if bool_decide (status r = CONFIRMED) then 1 else 0) ∧
  sum_confirmed_people s gid None =
    sum_confirmed_people (without i s) gid None +
    (if bool_decide (status r = CONFIRMED) then players r else 0) ∧
  count_waitlist_teams s gid =
    count_waitlist_teams (without i s) gid +
    (if bool_decide (status r = WAITLIST) then 1 else 0).
Proof.
  intros Hi Hg.
  set (s' := mkDb (games (without i s)) (<[i := r]> (registrations (without i s)))).
  assert (Hregs : registrations s' = registrations s).
  { simpl. by rewrite insert_delete_eq, insert_id. }
  destruct (aggregates_regs s' s gid None Hregs) as (Hc' & Hp' & Hw').
  destruct (aggregates_fresh (without i s) i r gid) as (Hc & Hp & Hw & _);
    [apply lookup_delete_eq | done |].
  rewrite <- Hc', <- Hp', <- Hw'. done.
Qed.

(** When its owner deletes a registration, the row is gone and the
    aggregates of its game lose exactly its contribution: a confirmed team
    takes one team and its players off the confirmed figures and leaves the
    waitlist count as it was, so no waitlisted team is promoted. *)
Theorem delete_registration_aggregates s st reg_id uid reg :
  registrations s !! reg_id = Some reg → user_id reg = uid →
  let out := delete_registration st reg_id uid s in
  let gid := game_id reg in
  answer out = RegistrationDeleted ∧
  registrations (store out) !! reg_id = None ∧
  count_confirmed_teams s gid =
    count_confirmed_teams (store out) gid +
    (if bool_decide (status reg = CONFIRMED) then 1 else 0) ∧
  sum_confirmed_people s gid None =
    sum_confirmed_people (store out) gid None +
    (if bool_decide (status reg = CONFIRMED) then players reg else 0) ∧
  count_waitlist_teams s gid =
    count_waitlist_teams (store out) gid +
    (if bool_decide (status reg = WAITLIST) then 1 else 0).
Proof.
  intros Hreg Huid out gid. subst out.
  unfold delete_registration, session_scope.
  rewrite Hreg, (owned_by_own uid reg Huid). simpl.
  split; [done|]. split; [apply lookup_delete_eq|].
  apply (aggregates_present s reg_id reg gid Hreg eq_refl).
Qed.

Lemma delete_registration_aggregates_witness :
  answer (delete_registration no_state 1 100 scenario_two_teams) = RegistrationDeleted ∧
  registrations (store (delete_registration no_state 1 100 scenario_two_teams)) !! 1
    = None ∧
  count_confirmed_teams scenario_two_teams 1 =
    count_confirmed_teams (store (delete_registration no_state 1 100 scenario_two_teams)) 1 +
    (if bool_decide (status (mkRegistration 100 100 1 "A" 4 CONFIRMED) = CONFIRMED)
     then 1 else 0) ∧
  sum_confirmed_people scenario_two_teams 1 None =
    sum_confirmed_people
      (store (delete_registration no_state 1 100 scenario_two_teams)) 1 None +
    (if bool_decide (status (mkRegistration 100 100 1 "A" 4 CONFIRMED) = CONFIRMED)
     then players (mkRegistration 100 100 1 "A" 4 CONFIRMED) else 0) ∧
  count_waitlist_teams scenario_two_teams 1 =
    count_waitlist_teams (store (delete_registration no_state 1 100 scenario_two_teams)) 1 +
    (if bool_decide (status (mkRegistration 100 100 1 "A" 4 CONFIRMED) = WAITLIST)
     then 1 else 0).
Proof.
  apply (delete_registration_aggregates scenario_two_teams no_state 1 100
           (mkRegistration 100 100 1 "A" 4 CONFIRMED)).
  - vm_compute. reflexivity.
  - reflexivity.
Defined.

(** ** Administrator operations *)

(** A user who is not in [admin_ids] gets no answer from the toggle and
    the deletion of a game, and the store is left as it was. *)
Theorem non_admin_changes_nothing admin_ids st uid gid s :
  uid ∉ admin_ids →
  admin_toggle_game admin_ids st uid gid s = mkOutcome Silent st s ∧
  admin_delete_game admin_ids st uid gid s = mkOutcome Silent st s.
Proof.
  intros Hno. unfold admin_toggle_game, admin_delete_game, is_admin.
  by rewrite (bool_decide_eq_false_2 _ Hno).
Qed.

Lemma non_admin_changes_nothing_witness :
  admin_toggle_game [7] no_state 100 1 scenario_two_teams =
    mkOutcome Silent no_state scenario_two_teams ∧
  admin_delete_game [7] no_state 100 1 scenario_two_teams =
    mkOutcome Silent no_state scenario_two_teams.
Proof.
  apply (non_admin_changes_nothing [7] no_state 100 1 scenario_two_teams).
  apply (bool_decide_unpack _). vm_compute. exact I.
Defined.

(** An administrator's toggle flips [is_active] of the game and touches
    nothing else: the limits, the other games and all registrations, with
    their statuses, stay as they were.  While the game is closed every
    registration attempt for it is refused, and a second toggle restores
    the store exactly. *)
Theorem admin_toggle_game_effect admin_ids st uid gid s g :
  uid ∈ admin_ids → games s !! gid = Some g →
  let s1 := store (admin_toggle_game admin_ids st uid gid s) in
  answer (admin_toggle_game admin_ids st uid gid s) = GameCard (negb (is_active g)) ∧
  games s1 !! gid =
    Some (mkGame (title g) (teams_capacity g) (people_capacity g) (negb (is_active g))) ∧
  (∀ k, k ≠ gid → games s1 !! k = games s !! k) ∧
  registrations s1 = registrations s ∧
  (is_active g = true →
   ∀ p name u chat, 1 <= p <= 12 →
     players_step (Some p) gid name u chat s1 = mkOutcome GameUnavailable no_state s1) ∧
  store (admin_toggle_game admin_ids st uid gid s1) = s.
Proof.
  intros Hadm Hg s1. subst s1. unfold admin_toggle_game, session_scope.
  rewrite (is_admin_true admin_ids uid Hadm), Hg. simpl.
  rewrite lookup_insert_eq. simpl.
  split; [done|]. split; [done|]. split; [|split; [done|split]].
  - intros k Hk. by rewrite lookup_insert_ne.
  - intros Ha p name u chat Hp. unfold players_step, session_scope, game_open.
    rewrite (valid_players_true p Hp). simpl.
    by rewrite lookup_insert_eq, Ha.
  - rewrite insert_insert_eq, negb_involutive.
    destruct s as [gs rs], g as [t tc pc a]. simpl in *.
    unfold set_active. simpl. f_equal. by apply insert_id.
Qed.

Lemma admin_toggle_game_effect_witness :
  answer (admin_toggle_game [7] no_state 7 1 scenario_two_teams) =
    GameCard (negb (is_active scenario_game)) ∧
  games (store (admin_toggle_game [7] no_state 7 1 scenario_two_teams)) !! 1 =
    Some (mkGame (title scenario_game) (teams_capacity scenario_game)
            (people_capacity scenario_game) (negb (is_active scenario_game))) ∧
  (∀ k, k ≠ 1 →
     games (store (admin_toggle_game [7] no_state 7 1 scenario_two_teams)) !! k =
     games scenario_two_teams !! k) ∧
  registrations (store (admin_toggle_game [7] no_state 7 1 scenario_two_teams)) =
    registrations scenario_two_teams ∧
  (is_active scenario_game = true →
   ∀ p name u chat, 1 <= p <= 12 →
     players_step (Some p) 1 name u chat
       (store (admin_toggle_game [7] no_state 7 1 scenario_two_teams)) =
     mkOutcome GameUnavailable no_state
       (store (admin_toggle_game [7] no_state 7 1 scenario_two_teams))) ∧
  store (admin_toggle_game [7] no_state 7 1
           (store (admin_toggle_game [7] no_state 7 1 scenario_two_teams))) =
    scenario_two_teams.
Proof.
  apply (admin_toggle_game_effect [7] no_state 7 1 scenario_two_teams scenario_game).
  - apply (bool_decide_unpack _). vm_compute. exact I.
  - vm_compute. reflexivity.
Defined.

Lemma reachable_referential admin_ids ops :
  Forall (λ o, is_delete_game o = false) ops →
  referential (run admin_ids ops empty_db).
Proof.
  intros Hkeep.
  apply (run_invariant admin_ids referential (λ o, is_delete_game o = false));
    [|done|apply map_Forall_empty].
  intros o s Ho.
  apply (transition_referential admin_ids s o); [apply apply_op_transition|done].
Qed.



(** ** More on the two evaluations *)

Lemma edit_status_confirmed_intro g ct cp p :
  (∀ N, teams_capacity g = Some N → ct <= N) →
  (∀ P, people_capacity g = Some P → cp + p <= P) →
  edit_status g ct cp p = CONFIRMED.
Proof.
  intros Ht Hp. unfold edit_status.
  destruct (teams_capacity g) as [N|], (people_capacity g) as [P|]; simpl;
    try specialize (Ht _ eq_refl); try specialize (Hp _ eq_refl);
    repeat match goal with
           | |- context [?a >? ?b] => destruct (Z.gtb_spec a b); [lia|]
           end; done.
Qed.

(** A game with neither limit confirms every registration and every edit
    of a player count, whatever is already registered. *)
Theorem unlimited_game_confirms s gid g :
  games s !! gid = Some g →
  teams_capacity g = None → people_capacity g = None →
  (∀ p name uid chat,
     1 <= p <= 12 → is_active g = true → no_clash s gid uid name →
     registrations (store (players_step (Some p) gid name uid chat s)) !!
       next_id (registrations s) =
     Some (mkRegistration uid chat gid name p CONFIRMED)) ∧
  (∀ p reg_id uid reg,
     1 <= p <= 12 → registrations s !! reg_id = Some reg →
     user_id reg = uid → game_id reg = gid →
     registrations (store (edit_players_apply (Some p) reg_id uid s)) !! reg_id =
     Some (mkRegistration uid (chat_id reg) gid (team_name reg) p CONFIRMED)).
Proof.
  intros Hg Ht Hp. split.
  - intros p name uid chat Hrange Ha Hno.
    rewrite (players_step_created s gid uid chat p name g Hrange Hg Ha Hno).
    simpl. rewrite lookup_insert_eq. unfold create_status. by rewrite Ht, Hp.
  - intros p reg_id uid reg Hrange Hreg Hu Hgid. subst gid.
    rewrite (edit_players_apply_written p reg_id uid s reg g Hrange Hreg Hu Hg).
    simpl. rewrite lookup_insert_eq. unfold edit_status. rewrite Ht, Hp.
    by subst uid.
Qed.

Lemma unlimited_game_confirms_witness :
  (∀ p name uid chat,
     1 <= p <= 12 → is_active (mkGame "darts" None None true) = true →
     no_clash two_games_db 2 uid name →
     registrations (store (players_step (Some p) 2 name uid chat two_games_db)) !!
       next_id (registrations two_games_db) =
     Some (mkRegistration uid chat 2 name p CONFIRMED)) ∧
  (∀ p reg_id uid reg,
     1 <= p <= 12 → registrations two_games_db !! reg_id = Some reg →
     user_id reg = uid → game_id reg = 2 →
     registrations (store (edit_players_apply (Some p) reg_id uid two_games_db)) !! reg_id =
     Some (mkRegistration uid (chat_id reg) 2 (team_name reg) p CONFIRMED)).
Proof.
  apply (unlimited_game_confirms two_games_db 2 (mkGame "darts" None None true)).
  - vm_compute. reflexivity.
  - reflexivity.
  - reflexivity.
Defined.

(** In a game whose confirmed teams and people are within its limits, a
    confirmed team that keeps or lowers its player count stays confirmed,
    and nothing but its player count changes; sending the same count again
    leaves the store as it was. *)
Theorem edit_confirmed_not_more_players s reg_id uid reg g p :
  1 <= p → p <= players reg → players reg <= 12 →
  registrations s !! reg_id = Some reg → user_id reg = uid →
  status reg = CONFIRMED →
  games s !! game_id reg = Some g →
  (∀ N, teams_capacity g = Some N → count_confirmed_teams s (game_id reg) <= N) →
  (∀ P, people_capacity g = Some P → sum_confirmed_people s (game_id reg) None <= P) →
  edit_players_apply (Some p) reg_id uid s =
    mkOutcome PlayersUpdated no_state
      (mkDb (games s)
         (<[reg_id := mkRegistration uid (chat_id reg) (game_id reg) (team_name reg) p
                        CONFIRMED]> (registrations s))) ∧
  (p = players reg → store (edit_players_apply (Some p) reg_id uid s) = s).
Proof.
  intros Hp1 Hp2 Hp3 Hreg Hu Hst Hg Hteams Hpeople.
  assert (Hout : edit_players_apply (Some p) reg_id uid s =
    mkOutcome PlayersUpdated no_state
      (mkDb (games s)
         (<[reg_id := mkRegistration uid (chat_id reg) (game_id reg) (team_name reg) p
                        CONFIRMED]> (registrations s)))).
  { rewrite (edit_players_apply_written p reg_id uid s reg g) by (done || lia).
    cbv zeta. rewrite (bool_decide_eq_true_2 _ Hst).
    destruct (aggregates_present s reg_id reg (game_id reg) Hreg eq_refl)
      as (Hc & Hs & _).
    rewrite (bool_decide_eq_true_2 _ Hst) in Hc, Hs.
    rewrite edit_status_confirmed_intro.
    - by subst uid.
    - intros N HN. specialize (Hteams N HN). lia.
    - intros P HP. specialize (Hpeople P HP). lia. }
  split; [exact Hout|]. intros ->. rewrite Hout. simpl.
  destruct s as [gs rs], reg as [u c gi n pl stt]. simpl in *. subst.
  f_equal. by apply insert_id.
Qed.

Lemma edit_confirmed_not_more_players_witness :
  edit_players_apply (Some 3) 1 100 scenario_two_teams =
    mkOutcome PlayersUpdated no_state
      (mkDb (games scenario_two_teams)
         (<[1 := mkRegistration 100 100 1 "A" 3 CONFIRMED]>
            (registrations scenario_two_teams))) ∧
  (3 = players (mkRegistration 100 100 1 "A" 4 CONFIRMED) →
   store (edit_players_apply (Some 3) 1 100 scenario_two_teams) = scenario_two_teams).
Proof.
  apply (edit_confirmed_not_more_players scenario_two_teams 1 100
           (mkRegistration 100 100 1 "A" 4 CONFIRMED) scenario_game 3).
  - lia.
  - simpl. lia.
  - simpl. lia.
  - vm_compute. reflexivity.
  - reflexivity.
  - reflexivity.
  - vm_compute. reflexivity.
  - intros N [= <-]. vm_compute. discriminate.
  - intros P [= <-]. vm_compute. discriminate.
Defined.

(** [exclude_reg_id] takes the excluded row's players off the sum when the
    row is a confirmed registration of the game, and changes nothing when
    the row does not exist, belongs to another game or is on the waitlist. *)
Theorem sum_confirmed_people_excluding s gid i :
  sum_confirmed_people s gid (Some i) =
  sum_confirmed_people s gid None -
  match registrations s !! i with
  | Some r =>
    if bool_decide (game_id r = gid) && bool_decide (status r = CONFIRMED)
    then players r else 0
  | None => 0
  end.
Proof.
  rewrite sum_confirmed_people_exclude.
  destruct (registrations s !! i) as [r|] eqn:Hi.
  - rewrite (sum_confirmed_people_present s i r gid Hi).
    unfold is_confirmed_in. destruct (_ && _); lia.
  - destruct (aggregates_regs (without i s) s gid None (without_absent s i Hi))
      as (_ & -> & _). lia.
Qed.

(** ** The registration dialogue *)



(** The player count is refused exactly when the text is not a number or
    the number is outside 1..12; the refusal writes nothing and keeps the
    user in the same step, for a new registration and for an edit alike. *)
Theorem player_count_validated s text :
  (∀ gid name uid chat,
     (answer (players_step text gid name uid chat s) = NeedNumber1to12 ↔
      text = None ∨ ∃ p, text = Some p ∧ ¬ (1 <= p <= 12)) ∧
     (answer (players_step text gid name uid chat s) = NeedNumber1to12 →
      players_step text gid name uid chat s =
      mkOutcome NeedNumber1to12 (entering_players gid name) s)) ∧
  (∀ reg_id uid,
     (answer (edit_players_apply text reg_id uid s) = NeedNumber1to12 ↔
      text = None ∨ ∃ p, text = Some p ∧ ¬ (1 <= p <= 12)) ∧
     (answer (edit_players_apply text reg_id uid s) = NeedNumber1to12 →
      edit_players_apply text reg_id uid s =
      mkOutcome NeedNumber1to12 (entering_new_players reg_id) s)).
Proof.
  assert (Hbad : ∀ p, valid_players p = false → ¬ (1 <= p <= 12)).
  { intros p Hv Hr. by rewrite (valid_players_true p Hr) in Hv. }
  assert (Hgood : ∀ p, valid_players p = true →
            ¬ (Some p = @None Z ∨ ∃ q, Some p = Some q ∧ ¬ (1 <= q <= 12))).
  { intros p Hv%valid_players_range [? | (q & [= <-] & Hq)]; [done | by apply Hq]. }
  split.
  - intros gid name uid chat. unfold players_step, session_scope, flush_insert.
    destruct text as [p|]; [|split; [split|]; auto].
    destruct (valid_players p) eqn:Hv; simpl.
    + specialize (Hgood p Hv).
      destruct (game_open s gid) as [g|]; simpl; [|split; [split|]; done].
      destruct (unique_violation _ _ _); simpl; split; try split; done.
    + split; [split|]; eauto.
  - intros reg_id uid. unfold edit_players_apply, session_scope.
    destruct text as [p|]; [|split; [split|]; auto].
    destruct (valid_players p) eqn:Hv; simpl.
    + specialize (Hgood p Hv).
      destruct (owned_by uid (registrations s !! reg_id)) as [reg|]; simpl;
        [|split; [split|]; done].
      destruct (games s !! game_id reg); simpl; split; try split; done.
    + split; [split|]; eauto.
Qed.

(** ** Counting the teams of a game *)

Lemma partition_rows gid (l : list (Z * Registration)) :
  Forall (λ kr, status_ok kr.2) l →
  length (List.filter (λ kr, bool_decide (game_id kr.2 = gid)) l) =
  (length (List.filter (λ kr, is_confirmed_in gid kr.2) l) +
   length (List.filter (λ kr, bool_decide (game_id kr.2 = gid) &&
                              bool_decide (status kr.2 = WAITLIST)) l))%nat.
Proof.
  induction 1 as [|[i r] l Hok _ IH]; simpl; [done|].
  unfold is_confirmed_in in *. simpl in *.
  destruct (bool_decide (game_id r = gid)); simpl; [|done].
  destruct Hok as [Hs | Hs].
  - rewrite (bool_decide_eq_true_2 (status r = CONFIRMED) Hs).
    rewrite (bool_decide_eq_false_2 (status r = WAITLIST)) by (by rewrite Hs).
    simpl. lia.
  - rewrite (bool_decide_eq_false_2 (status r = CONFIRMED)) by (by rewrite Hs).
    rewrite (bool_decide_eq_true_2 (status r = WAITLIST) Hs).
    simpl. lia.
Qed.

(** In every store the handlers can produce, the registrations of a game
    are its confirmed teams and its waitlisted teams, each counted once:
    the total that [teams_list_text] counts is the sum of the two figures
    shown on the game's card. *)
Theorem teams_are_confirmed_or_waitlisted admin_ids ops gid :
  count_all_teams (run admin_ids ops empty_db) gid =
  count_confirmed_teams (run admin_ids ops empty_db) gid +
  count_waitlist_teams (run admin_ids ops empty_db) gid.
Proof.
  pose proof (run_status_domain admin_ids ops empty_db (map_Forall_empty _)) as Hdom.
  unfold count_all_teams, count_confirmed_teams, count_waitlist_teams,
    count_rows, select_where.
  rewrite (partition_rows gid (map_to_list (registrations (run admin_ids ops empty_db)))).
  - lia.
  - apply Forall_forall. intros [i r] Hin.
    apply elem_of_map_to_list in Hin. apply (Hdom i r Hin).
Qed.

(** ** The list of games, page by page *)

Lemma py_slice_page {A} (l : list A) (start size : Z) :
  0 <= start → 0 < size →
  py_slice l start (start + size) = take (Z.to_nat size) (drop (Z.to_nat start) l).
Proof.
  intros Hstart Hsize. unfold py_slice, slice_bound.
  set (n := Z.of_nat (length l)).
  assert (Hn : 0 <= n) by (unfold n; lia).
  destruct (Z.ltb_spec start 0); [lia|].
  destruct (Z.ltb_spec (start + size) 0); [lia|].
  destruct (Z_lt_ge_dec start n) as [Hlt | Hge].
  - rewrite (Z.min_l start n) by lia.
    destruct (Z_le_gt_dec (start + size) n) as [Hfit | Hover].
    + rewrite Z.min_l by lia. f_equal. lia.
    + rewrite Z.min_r by lia.
      rewrite !take_ge; [done|..]; rewrite length_drop; unfold n in *; lia.
  - rewrite !Z.min_r by lia. rewrite Z.sub_diag. simpl.
    rewrite (drop_ge l (Z.to_nat start)) by (unfold n in *; lia).
    by rewrite take_nil.
Qed.

(** The markup of a page from 1 on, with the slice written out. *)
Lemma games_list_kb_page games page :
  1 <= page →
  games_list_kb games page 8 =
  map (λ g, [game_button g])
      (take 8 (drop (Z.to_nat (8 * (page - 1))) games)) ++
  [ (if 1 <? page then [back_button page] else []) ++
    (if 8 * page <? Z.of_nat (length games) then [forward_button page] else []) ++
    [my_regs_button] ].
Proof.
  intros Hpage. unfold games_list_kb.
  rewrite py_slice_page by lia.
  replace ((page - 1) * 8) with (8 * (page - 1)) by lia.
  replace (8 * (page - 1) + 8) with (8 * page) by lia.
  assert (Hback : (8 * (page - 1) >? 0) = (1 <? page)).
  { destruct (Z.gtb_spec (8 * (page - 1)) 0), (Z.ltb_spec 1 page); done || lia. }
  rewrite Hback. done.
Qed.

(** Every game of the list is shown on exactly one page, in the order of
    the list: the game at position [8 * (page - 1) + j] is row [j] of page
    [page], for [j] below 8, and the rows of a page number the games from
    that position to the end of the list, at most eight, plus the row of
    navigation buttons. *)
Theorem games_list_kb_rows games page (j : nat) :
  1 <= page → (j < 8)%nat →
  (∀ g, games !! (Z.to_nat (8 * (page - 1)) + j)%nat = Some g →
        games_list_kb games page 8 !! j = Some [game_button g]) ∧
  length (games_list_kb games page 8) =
    S (Nat.min 8 (length games - Z.to_nat (8 * (page - 1)))).
Proof.
  intros Hpage Hj. rewrite (games_list_kb_page games page Hpage). split.
  - intros g Hg.
    rewrite lookup_app_l.
    + rewrite list_lookup_fmap, lookup_take_lt by done.
      by rewrite lookup_drop, Hg.
    + rewrite length_map, length_take, length_drop.
      apply lookup_lt_Some in Hg. lia.
  - rewrite length_app, length_map, length_take, length_drop. simpl. lia.
Qed.

Lemma games_list_kb_rows_witness :
  (∀ g, ten_games !! (Z.to_nat (8 * (2 - 1)) + 1)%nat = Some g →
        games_list_kb ten_games 2 8 !! 1%nat = Some [game_button g]) ∧
  length (games_list_kb ten_games 2 8) =
    S (Nat.min 8 (length ten_games - Z.to_nat (8 * (2 - 1)))).
Proof.
  apply (games_list_kb_rows ten_games 2 1); lia.
Defined.

(** The last row of a page from 1 on is the navigation: a button back to
    the previous page exactly when the page is not the first, a button to
    the next page exactly when games remain after this page, and always the
    button of the user's registrations.  The page a button leads to is again
    at least 1, and the next page shows at least one game. *)
Theorem games_list_kb_navigation games page :
  1 <= page →
  last (games_list_kb games page 8) =
    Some ((if 1 <? page then [back_button page] else []) ++
          (if 8 * page <? Z.of_nat (length games) then [forward_button page] else []) ++
          [my_regs_button]) ∧
  (1 < page → callback_data (back_button page) = "page:" +:+ pretty (page - 1) ∧
              1 <= page - 1) ∧
  (8 * page < Z.of_nat (length games) →
     callback_data (forward_button page) = "page:" +:+ pretty (page + 1) ∧
     (1 < length (games_list_kb games (page + 1) 8))%nat).
Proof.
  intros Hpage. split; [|split].
  - rewrite (games_list_kb_page games page Hpage). apply last_snoc.
  - intros Hlt. split; [done | lia].
  - intros Hmore. split; [done|].
    rewrite (games_list_kb_page games (page + 1)) by lia.
    rewrite length_app, length_map, length_take, length_drop. cbn [length].
    replace (8 * (page + 1 - 1)) with (8 * page) by lia. lia.
Qed.

Lemma games_list_kb_navigation_witness :
  last (games_list_kb ten_games 1 8) =
    Some ((if 1 <? 1 then [back_button 1] else []) ++
          (if 8 * 1 <? Z.of_nat (length ten_games) then [forward_button 1] else []) ++
          [my_regs_button]) ∧
  (1 < 1 → callback_data (back_button 1) = "page:" +:+ pretty (1 - 1) ∧ 1 <= 1 - 1) ∧
  (8 * 1 < Z.of_nat (length ten_games) →
     callback_data (forward_button 1) = "page:" +:+ pretty (1 + 1) ∧
     (1 < length (games_list_kb ten_games (1 + 1) 8))%nat).
Proof.
  apply (games_list_kb_navigation ten_games 1). lia.
Defined.

(** Buttons of different games carry different callback data, so the
    handler that reads the number after [game:] gets the game of the button
    that was pressed. *)
Theorem game_button_callback_inj g1 g2 :
  callback_data (game_button g1) = callback_data (game_button g2) → g1.1 = g2.1.
Proof.
  unfold game_button. simpl. intros Heq.
  apply (inj (String.append "game:")) in Heq. by apply (inj pretty) in Heq.
Qed.

Lemma game_button_callback_inj_witness :
  (5, "quiz").1 = (5, "darts").1.
Proof.
  apply (game_button_callback_inj (5, "quiz") (5, "darts")). reflexivity.
Defined.

(** ** What the two edits leave alone *)

(** Neither edit moves a registration to another user, chat or game, nor
    removes it.  An edit of the player count keeps the team name; a rename
    keeps the player count and the status, so it never re-evaluates the
    registration. *)
Theorem edits_keep_identity s reg_id uid reg :
  registrations s !! reg_id = Some reg →
  (∀ text, ∃ r',
     registrations (store (edit_players_apply text reg_id uid s)) !! reg_id = Some r' ∧
     user_id r' = user_id reg ∧ chat_id r' = chat_id reg ∧
     game_id r' = game_id reg ∧ team_name r' = team_name reg) ∧
  (∀ name, ∃ r',
     registrations (store (edit_name_apply name reg_id uid s)) !! reg_id = Some r' ∧
     user_id r' = user_id reg ∧ chat_id r' = chat_id reg ∧
     game_id r' = game_id reg ∧
     players r' = players reg ∧ status r' = status reg).
Proof.
  intros Hreg. split.
  - intros text. unfold edit_players_apply, session_scope.
    destruct text as [p|]; [|by exists reg].
    destruct (valid_players p); simpl; [|by exists reg].
    destruct (owned_by uid (registrations s !! reg_id)) as [r0|] eqn:Hown;
      [|by exists reg].
    apply owned_by_Some in Hown as [Hr0 _]. rewrite Hreg in Hr0. simplify_eq.
    destruct (games s !! game_id r0); simpl; [|by exists r0].
    eexists. rewrite lookup_insert_eq. by split.
  - intros name. unfold edit_name_apply, session_scope, flush_update.
    destruct (valid_name name); simpl; [|by exists reg].
    destruct (owned_by uid (registrations s !! reg_id)) as [r0|] eqn:Hown;
      [|by exists reg].
    apply owned_by_Some in Hown as [Hr0 _]. rewrite Hreg in Hr0. simplify_eq.
    destruct (existsb _ _); [by exists r0|].
    destruct (unique_violation _ _ _); simpl; [by exists r0|].
    eexists. rewrite lookup_insert_eq. by split.
Qed.

Lemma edits_keep_identity_witness :
  (∀ text, ∃ r',
     registrations (store (edit_players_apply text 1 100 scenario_two_teams)) !! 1 =
       Some r' ∧
     user_id r' = user_id (mkRegistration 100 100 1 "A" 4 CONFIRMED) ∧
     chat_id r' = chat_id (mkRegistration 100 100 1 "A" 4 CONFIRMED) ∧
     game_id r' = game_id (mkRegistration 100 100 1 "A" 4 CONFIRMED) ∧
     team_name r' = team_name (mkRegistration 100 100 1 "A" 4 CONFIRMED)) ∧
  (∀ name, ∃ r',
     registrations (store (edit_name_apply name 1 100 scenario_two_teams)) !! 1 =
       Some r' ∧
     user_id r' = user_id (mkRegistration 100 100 1 "A" 4 CONFIRMED) ∧
     chat_id r' = chat_id (mkRegistration 100 100 1 "A" 4 CONFIRMED) ∧
     game_id r' = game_id (mkRegistration 100 100 1 "A" 4 CONFIRMED) ∧
     players r' = players (mkRegistration 100 100 1 "A" 4 CONFIRMED) ∧
     status r' = status (mkRegistration 100 100 1 "A" 4 CONFIRMED)).
Proof.
  apply (edits_keep_identity scenario_two_teams 1 100
           (mkRegistration 100 100 1 "A" 4 CONFIRMED)).
  vm_compute. reflexivity.
Defined.

(** ** The limits the wizard accepts *)

Lemma wizard_accepts_cap_ok raw c :
  add_game_teams_capacity raw = cap_accepted c ∨
  add_game_people_capacity raw = cap_accepted c →
  cap_ok c.
Proof.
  unfold add_game_teams_capacity, add_game_people_capacity.
  destruct raw as [|z|]; intros [H | H]; try discriminate H.
  - by injection H as <-.
  - by injection H as <-.
  - destruct (Z.leb_spec z 0); [discriminate H|]. by injection H as <-.
  - destruct (Z.leb_spec z 0); [discriminate H|]. by injection H as <-.
Qed.

(** ** Witnesses of the invariants *)

Lemma reachable_players_in_range admin_ids ops :
  players_in_range (run admin_ids ops empty_db).
Proof.
  apply (run_invariant admin_ids players_in_range (λ _, True)).
  - intros o s _. apply (transition_players_in_range admin_ids s o),
      apply_op_transition.
  - by apply Forall_true.
  - apply map_Forall_empty.
Qed.

Lemma unique_store_invariant_witness :
  unique_store (apply_op [7] (Register (Some 1) 1 "C" 300 300) scenario_two_teams) ∧
  (1 : Z) = 1.
Proof.
  split.
  - apply (proj1 (unique_store_invariant [7])).
    apply (reachable_unique [7] (firstn 3 scenario_ops)).
  - apply (proj2 (unique_store_invariant [7]) scenario_ops 1 1
             (mkRegistration 100 100 1 "A" 7 WAITLIST)
             (mkRegistration 100 100 1 "A" 7 WAITLIST)).
    + vm_compute. reflexivity.
    + vm_compute. reflexivity.
    + reflexivity.
    + left. reflexivity.
Defined.

Lemma referential_without_game_deletion_witness :
  referential (apply_op [7] (ToggleGame 7 1) scenario_two_teams) ∧
  is_Some (games (run [7] scenario_ops empty_db) !!
             game_id (mkRegistration 100 100 1 "A" 7 WAITLIST)).
Proof.
  split.
  - apply (proj1 (referential_without_game_deletion [7])); [reflexivity|].
    apply (reachable_referential [7] (firstn 3 scenario_ops)).
    repeat constructor.
  - apply (proj2 (referential_without_game_deletion [7]) scenario_ops 1).
    + repeat constructor.
    + vm_compute. reflexivity.
Defined.

Lemma players_in_range_invariant_witness :
  players_in_range (apply_op [7] (EditPlayers (Some 12) 1 100) scenario_two_teams) ∧
  1 <= players (mkRegistration 100 100 1 "A" 7 WAITLIST) <= 12.
Proof.
  split.
  - apply (proj1 (players_in_range_invariant [7])).
    apply (reachable_players_in_range [7] (firstn 3 scenario_ops)).
  - apply (proj2 (players_in_range_invariant [7]) scenario_ops 1).
    vm_compute. reflexivity.
Defined.

Lemma players_step_aggregates_witness :
  let s := scenario_two_teams in
  let out := players_step (Some 1) 1 "C" 300 300 s in
  let st := create_status scenario_game (count_confirmed_teams s 1)
              (sum_confirmed_people s 1 None) 1 in
  answer out =
    RegistrationCreated st
      (count_confirmed_teams s 1 + (if bool_decide (st = CONFIRMED) then 1 else 0))
      (count_waitlist_teams s 1 + (if bool_decide (st = CONFIRMED) then 0 else 1))
      (sum_confirmed_people s 1 None + (if bool_decide (st = CONFIRMED) then 1 else 0)) ∧
  count_confirmed_teams (store out) 1 =
    count_confirmed_teams s 1 + (if bool_decide (st = CONFIRMED) then 1 else 0) ∧
  sum_confirmed_people (store out) 1 None =
    sum_confirmed_people s 1 None + (if bool_decide (st = CONFIRMED) then 1 else 0) ∧
  count_waitlist_teams (store out) 1 =
    count_waitlist_teams s 1 + (if bool_decide (st = CONFIRMED) then 0 else 1) ∧
  (∀ gid', gid' ≠ 1 →
     count_confirmed_teams (store out) gid' = count_confirmed_teams s gid' ∧
     sum_confirmed_people (store out) gid' None = sum_confirmed_people s gid' None ∧
     count_waitlist_teams (store out) gid' = count_waitlist_teams s gid').
Proof.
  apply (players_step_aggregates scenario_two_teams 1 300 300 1 "C" scenario_game).
  - lia.
  - vm_compute. reflexivity.
  - reflexivity.
  - apply (bool_decide_unpack _). vm_compute. exact I.
Defined.

Lemma player_count_validated_witness :
  players_step (Some 13) 1 "C" 300 300 scenario_two_teams =
    mkOutcome NeedNumber1to12 (entering_players 1 "C") scenario_two_teams ∧
  edit_players_apply (Some 0) 1 100 scenario_two_teams =
    mkOutcome NeedNumber1to12 (entering_new_players 1) scenario_two_teams.
Proof.
  split.
  - apply (proj2 (proj1 (player_count_validated scenario_two_teams (Some 13))
                    1 "C" 300 300)).
    apply (proj1 (player_count_validated scenario_two_teams (Some 13))
             1 "C" 300 300).
    right. exists 13. split; [reflexivity | lia].
  - apply (proj2 (proj2 (player_count_validated scenario_two_teams (Some 0)) 1 100)).
    apply (proj2 (player_count_validated scenario_two_teams (Some 0)) 1 100).
    right. exists 0. split; [reflexivity | lia].
Defined.

(** ** The game of an edited registration *)

(** When the owner edits the player count, with a number from 1 to 12, of
    a registration whose game is no longer stored, the handler fails on
    [game.teams_capacity]: the store is left as it was, the new player
    count included, and the step is not left.  This happens exactly when
    the game is missing; it never happens in a store reached without the
    deletion of a game. *)
Theorem edit_players_apply_missing_game s reg_id uid reg p :
  1 <= p <= 12 →
  registrations s !! reg_id = Some reg → user_id reg = uid →
  (answer (edit_players_apply (Some p) reg_id uid s) = AttributeError ↔
   games s !! game_id reg = None) ∧
  (games s !! game_id reg = None →
   edit_players_apply (Some p) reg_id uid s =
   mkOutcome AttributeError (entering_new_players reg_id) s) ∧
  (∀ admin_ids ops,
     Forall (λ o, is_delete_game o = false) ops →
     s = run admin_ids ops empty_db →
     answer (edit_players_apply (Some p) reg_id uid s) = PlayersUpdated).
Proof.
  intros Hp Hreg Hu.
  assert (Hmissing : games s !! game_id reg = None →
    edit_players_apply (Some p) reg_id uid s =
    mkOutcome AttributeError (entering_new_players reg_id) s).
  { intros Hg. unfold edit_players_apply, session_scope.
    rewrite (valid_players_true p Hp), Hreg, (owned_by_own uid reg Hu). simpl.
    by rewrite Hg. }
  split; [|split; [exact Hmissing|]].
  - split; [|by intros Hg; rewrite (Hmissing Hg)].
    destruct (games s !! game_id reg) as [g|] eqn:Hg; [|done].
    by rewrite (edit_players_apply_written p reg_id uid s reg g Hp Hreg Hu Hg).
  - intros admin_ids ops Hkeep ->.
    destruct (reachable_referential admin_ids ops Hkeep reg_id reg Hreg) as [g Hg].
    simpl in Hg.
    by rewrite (edit_players_apply_written p reg_id uid _ reg g Hp Hreg Hu Hg).
Qed.

Lemma edit_players_apply_missing_game_witness :
  edit_players_apply (Some 5) 1 100
    (store (admin_delete_game [7] no_state 7 1 two_games_db)) =
  mkOutcome AttributeError (entering_new_players 1)
    (store (admin_delete_game [7] no_state 7 1 two_games_db)).
Proof.
  apply (proj1 (proj2 (edit_players_apply_missing_game
           (store (admin_delete_game [7] no_state 7 1 two_games_db)) 1 100
           (mkRegistration 100 100 1 "A" 4 CONFIRMED) 5
           ltac:(lia) ltac:(vm_compute; reflexivity) eq_refl))).
  vm_compute. reflexivity.
Defined.
